(** * Teleporter WebSocket relay: a shallow embedding and its properties

    The development follows [teleporter-websocket-relay.js]: the class
    [TeleporterWebSocketRelay] with its fields [clients], [messageHistory]
    and [maxHistorySize], the handlers registered in [start] and
    [startMonitoring], and the methods [broadcastEvent] and
    [handleClientMessage].

    Node runs every handler to completion on one thread, so each handler is
    a function from relay state to relay state; what the environment does
    (a client connects, a socket changes state, a contract event fires) is
    an [Input] of the step function. Writing to the console changes
    nothing the relay reads and is left out. [stop] and the script of
    the example HTML client ([onmessage] and [updateStats]) come after
    the relay; the client's [onopen], [onclose] and timer are not
    modelled. *)

From Stdlib Require Import ZArith Lia.
From stdpp Require Import gmap strings list fin_maps pretty.

Set Default Proof Using "Type".
Set Warnings "-register-all".

(** ** Data model *)

(** A [ws] object is identified by its index in the store of sockets. *)
Abbreviation WsId := nat (only parsing).

(** [ws.readyState] of a socket handed to the ['connection'] handler: the
    handshake is over, so [CONNECTING] (0) does not occur on the server. *)
Inductive ReadyState := OPEN | CLOSING | CLOSED.

#[global] Instance ReadyState_eq_dec : EqDecision ReadyState.
Proof. solve_decision. Defined.

(** [event.data]: [sender] is set by the receive handler,
    [destinationAddress] and [requiredGasLimit] by the send handler;
    [message] is the decoded text or the undecoded payload and
    [messageType] is present (['hex']) exactly in the second case. *)
Record EventData := {
  sender : option string;
  destinationAddress : option string;
  requiredGasLimit : option string;
  message : string;
  messageType : option string
}.

(** The object built by the two contract-event handlers. *)
Record Event := {
  type : string;
  network : string;
  messageId : string;
  sourceChain : option string;
  destinationChain : option string;
  deliverer : option string;
  timestamp : string;
  data : EventData
}.

#[global] Instance EventData_eq_dec : EqDecision EventData.
Proof. solve_decision. Defined.

#[global] Instance Event_eq_dec : EqDecision Event.
Proof. solve_decision. Defined.

(** The value [JSON.parse] returns for a client message. An object has
    each of its keys once ([JSON.parse] keeps the last of a repeated key).
    Only the zero test of a number is ever looked at, so numbers are kept
    as integers. *)
Inductive json :=
| JNull
| JBool (b : bool)
| JNum (z : Z)
| JStr (s : string)
| JArr (items : list json)
| JObj (fields : list (string * json)).

(** [stats.networks[n]] *)
Record Counts := { sent : nat; received : nat }.

(** What [ws.send] is given, before [JSON.stringify]. *)
Inductive ServerMsg :=
| Connected (timestamp : string) (networks : list string)
| History (messages : list Event)
| Live (event : Event)
| Subscribed (networks : json)
| Stats (totalMessages connectedClients : nat) (networks : gmap string Counts)
| Error (error : string).

(** A socket: its state and everything sent on it so far, oldest first. *)
Record Socket := {
  readyState : ReadyState;
  outbox : list ServerMsg
}.

(** The relay object ([this]) together with the sockets the server has
    accepted. [clients] is the [Set], in insertion order. *)
Record State := {
  networks : list string;
  clients : list WsId;
  messageHistory : list Event;
  maxHistorySize : nat;
  sockets : list Socket
}.

Definition set_clients (f : list WsId → list WsId) (st : State) : State :=
  {| networks := networks st; clients := f (clients st);
     messageHistory := messageHistory st;
     maxHistorySize := maxHistorySize st; sockets := sockets st |}.

Definition set_messageHistory (f : list Event → list Event) (st : State) : State :=
  {| networks := networks st; clients := clients st;
     messageHistory := f (messageHistory st);
     maxHistorySize := maxHistorySize st; sockets := sockets st |}.

Definition set_sockets (f : list Socket → list Socket) (st : State) : State :=
  {| networks := networks st; clients := clients st;
     messageHistory := messageHistory st;
     maxHistorySize := maxHistorySize st; sockets := f (sockets st) |}.

(** [new TeleporterWebSocketRelay(config)]: [networkNames] stands for
    [Object.keys(config.networks)]. *)
Definition constructor (networkNames : list string) : State :=
  {| networks := networkNames; clients := []; messageHistory := [];
     maxHistorySize := 100; sockets := [] |}.

(** ** Sockets *)

(** [ws.send(data)] without a callback, as in ws 7 and 8: the data goes
    out on an open socket and is discarded on a closing or closed one. *)
Definition socket_send (msg : ServerMsg) (s : Socket) : Socket :=
  match readyState s with
  | OPEN => {| readyState := OPEN; outbox := outbox s ++ [msg] |}
  | _ => s
  end.

Definition ws_send (ws : WsId) (msg : ServerMsg) (st : State) : State :=
  set_sockets (alter (socket_send msg) ws) st.

Definition is_open (ws : WsId) (st : State) : bool :=
  match sockets st !! ws with
  | Some s => bool_decide (readyState s = OPEN)
  | None => false
  end.

Definition outbox_of (ws : WsId) (st : State) : list ServerMsg :=
  match sockets st !! ws with
  | Some s => outbox s
  | None => []
  end.

(** [Set.prototype.add] and [Set.prototype.delete] *)
Definition Set_add (ws : WsId) (s : list WsId) : list WsId :=
  if decide (ws ∈ s) then s else s ++ [ws].

Definition Set_delete (ws : WsId) (s : list WsId) : list WsId :=
  filter (λ c, c ≠ ws) s.

(** ** The history and the broadcast *)

(** [this.messageHistory.push(event)] *)
Definition history_push (event : Event) (st : State) : State :=
  set_messageHistory (λ h, h ++ [event]) st.

(** [if (this.messageHistory.length > this.maxHistorySize) this.messageHistory.shift()] *)
Definition history_shift (st : State) : State :=
  if maxHistorySize st <? length (messageHistory st)
  then set_messageHistory (drop 1) st
  else st.

(** One turn of the loop over [this.clients]. *)
Definition deliver (msg : ServerMsg) (st : State) (client : WsId) : State :=
  if is_open client st then ws_send client msg st else st.

Definition broadcastEvent (event : Event) (st : State) : State :=
  let st := history_shift (history_push event st) in
  foldl (deliver (Live event)) st (clients st).

(** The states the relay goes through inside one [broadcastEvent]: after
    the push, after the trim, and after each turn of the loop. *)
Fixpoint deliveries (msg : ServerMsg) (st : State) (cs : list WsId) : list State :=
  match cs with
  | [] => []
  | c :: cs' => let st' := deliver msg st c in st' :: deliveries msg st' cs'
  end.

Definition broadcastEvent_points (event : Event) (st : State) : list State :=
  let st1 := history_push event st in
  let st2 := history_shift st1 in
  st1 :: st2 :: deliveries (Live event) st2 (clients st2).

(** ** Statistics *)

(** [stats.networks] starts as the object literal [{}]: a plain object,
    whose properties are its own ones, kept here as a finite map, and
    those it inherits from [Object.prototype]. These are the names of
    the latter; what each of them holds is a function, or for
    [__proto__] the prototype itself: an object every time, which a
    condition takes as true. *)
Definition Object_prototype_names : list string :=
  [ "constructor"; "__defineGetter__"; "__defineSetter__"; "hasOwnProperty";
    "__lookupGetter__"; "__lookupSetter__"; "isPrototypeOf";
    "propertyIsEnumerable"; "toString"; "valueOf"; "__proto__";
    "toLocaleString" ]%string.

Definition inherited (k : string) : bool :=
  bool_decide (k ∈ Object_prototype_names).

(** The body of the loop [for (const msg of this.messageHistory)] in the
    [get_stats] case. The test [!stats.networks[msg.network]] reads the
    property through the prototype as well: it finds nothing only when
    the name is neither a property of [stats.networks] itself nor one of
    [Object_prototype_names], and only then is an entry made. The
    increment goes to the object the same read finds: to the entry when
    there is one, and otherwise to the inherited object, which is no part
    of [stats.networks] and of what [JSON.stringify] writes of it. *)
Definition count_message (nets : gmap string Counts) (msg : Event) : gmap string Counts :=
  let nets :=
    match nets !! network msg with
    | None =>
        if inherited (network msg) then nets
        else <[network msg := {| sent := 0; received := 0 |}]> nets
    | Some _ => nets
    end in
  if decide (type msg = "message_sent"%string)
  then alter (λ c, {| sent := S (sent c); received := received c |}) (network msg) nets
  else alter (λ c, {| sent := sent c; received := S (received c) |}) (network msg) nets.

Definition stats_networks (h : list Event) : gmap string Counts :=
  foldl count_message ∅ h.

Definition stats_message (st : State) : ServerMsg :=
  Stats (length (messageHistory st)) (length (clients st))
        (stats_networks (messageHistory st)).

(** ** Client messages *)

(** How an expression ends: with a value, or by throwing an error whose
    [message] is kept. *)
Inductive Completion (A : Type) :=
| Normal (a : A)
| Throw (error_message : string).
Arguments Normal {A} a.
Arguments Throw {A} error_message.

Definition get_field (k : string) (fields : list (string * json)) : option json :=
  snd <$> find (λ kv, bool_decide (kv.1 = k)) fields.

(** [data.type] and [data.networks]: [undefined] ([None]) on anything but
    an object that has the field. Reading a property of [null] throws and
    is dealt with where it happens. *)
Definition property (k : string) (data : json) : option json :=
  match data with
  | JObj fields => get_field k fields
  | _ => None
  end.

(** JavaScript truthiness of a parsed value. *)
Definition truthy (v : json) : bool :=
  match v with
  | JNull => false
  | JBool b => b
  | JNum z => negb (z =? 0)%Z
  | JStr s => negb (bool_decide (s = ""%string))
  | JArr _ | JObj _ => true
  end.

(** The [switch] compares with [===]: only a string can match a case. *)
Definition as_string (v : option json) : option string :=
  match v with
  | Some (JStr s) => Some s
  | _ => None
  end.

(** [data.networks || Object.keys(this.config.networks)] *)
Definition subscribed_networks (data : json) (st : State) : json :=
  match property "networks" data with
  | Some v => if truthy v then v else JArr (JStr <$> networks st)
  | None => JArr (JStr <$> networks st)
  end.

Definition handleClientMessage (ws : WsId) (data : json) (st : State) : Completion State :=
  match data with
  | JNull => Throw "Cannot read properties of null (reading 'type')"
  | _ =>
    let t := as_string (property "type" data) in
    if decide (t = Some "subscribe"%string) then
      Normal (ws_send ws (Subscribed (subscribed_networks data st)) st)
    else if decide (t = Some "get_stats"%string) then
      Normal (ws_send ws (stats_message st) st)
    else
      Normal (ws_send ws (Error "Unknown message type") st)
  end.

(** ** Normalisation of contract events *)

(** The [bytes] fields arrive as hex strings. Only the fields the handlers
    read are kept apart; the tuples are as in [TELEPORTER_ABI]. *)
Record TeleporterMessage := {
  tm_sourceBlockchainID : string;
  originSenderAddress : string;
  tm_message : string
}.

Record FeeInfo := { feeTokenAddress : string; amount : N }.

Record TeleporterMessageInput := {
  ti_destinationBlockchainID : string;
  ti_destinationAddress : string;
  ti_feeInfo : FeeInfo;
  ti_requiredGasLimit : N;
  allowedRelayerAddresses : list string;
  ti_message : string
}.

(** A handler body up to its call of [broadcastEvent]: it either is done
    with a value or calls [ethers.toUtf8String] on a payload and goes on
    with the outcome, [None] when the call throws. *)
Inductive Adapter (A : Type) :=
| Done (a : A)
| Decode (payload : string) (k : option string → Adapter A).
Arguments Done {A} a.
Arguments Decode {A} payload k.

(** [try { event.data.message = ethers.toUtf8String(payload) }
     catch (error) { event.data.message = payload; event.data.messageType = 'hex' }]
    The event is built with [message: null], written here as the empty
    string, and both branches assign it. *)
Definition with_message (event : Event) (payload : string) (outcome : option string) : Event :=
  let d := data event in
  let d' :=
    match outcome with
    | Some text =>
        {| sender := sender d; destinationAddress := destinationAddress d;
           requiredGasLimit := requiredGasLimit d;
           message := text; messageType := messageType d |}
    | None =>
        {| sender := sender d; destinationAddress := destinationAddress d;
           requiredGasLimit := requiredGasLimit d;
           message := payload; messageType := Some "hex"%string |}
    end in
  {| type := type event; network := network event; messageId := messageId event;
     sourceChain := sourceChain event; destinationChain := destinationChain event;
     deliverer := deliverer event; timestamp := timestamp event; data := d' |}.

Definition normalizeReceived (networkName messageID sourceBlockchainID deliverer_ relayerRewardAddress : string)
    (teleporterMessage : TeleporterMessage) (now : string) : Adapter Event :=
  let event :=
    {| type := "message_received"; network := networkName; messageId := messageID;
       sourceChain := Some sourceBlockchainID; destinationChain := None;
       deliverer := Some deliverer_; timestamp := now;
       data := {| sender := Some (originSenderAddress teleporterMessage);
                  destinationAddress := None; requiredGasLimit := None;
                  message := ""; messageType := None |} |} in
  Decode (tm_message teleporterMessage)
         (λ outcome, Done (with_message event (tm_message teleporterMessage) outcome)).

Definition normalizeSent (networkName messageID destinationBlockchainID : string)
    (message_ : TeleporterMessageInput) (feeInfo : FeeInfo) (now : string) : Adapter Event :=
  let event :=
    {| type := "message_sent"; network := networkName; messageId := messageID;
       sourceChain := None; destinationChain := Some destinationBlockchainID;
       deliverer := None; timestamp := now;
       data := {| sender := None;
                  destinationAddress := Some (ti_destinationAddress message_);
                  requiredGasLimit := Some (pretty (ti_requiredGasLimit message_));
                  message := ""; messageType := None |} |} in
  Decode (ti_message message_)
         (λ outcome, Done (with_message event (ti_message message_) outcome)).

(** ** The relay as a machine over its inputs *)

(** What can happen to a running relay. [Closing] and [Close] are the two
    moves of a socket's [readyState]; [Close] also fires the ['close']
    handler. The last two are the contract events with the arguments
    ethers passes to the listener, and each handler reads the clock
    ([now]) once. *)
Inductive Input :=
| Connection (now : string)
| ClientMessage (ws : WsId) (raw : string)
| Closing (ws : WsId)
| Close (ws : WsId)
| ReceiveCrossChainMessage
    (networkName messageID sourceBlockchainID deliverer_ relayerRewardAddress : string)
    (teleporterMessage : TeleporterMessage) (now : string)
| SendCrossChainMessage
    (networkName messageID destinationBlockchainID : string)
    (message_ : TeleporterMessageInput) (feeInfo : FeeInfo) (now : string).

Definition set_readyState (rs : ReadyState) (s : Socket) : Socket :=
  {| readyState := rs; outbox := outbox s |}.

(** The server accepts a connection: a new open socket, nothing sent. *)
Definition accept (st : State) : State :=
  set_sockets (λ ss, ss ++ [{| readyState := OPEN; outbox := [] |}]) st.

(** The ['connection'] handler, up to the registration of the socket's
    own handlers. *)
Definition on_connection (ws : WsId) (now : string) (st : State) : State :=
  let st := set_clients (Set_add ws) st in
  let st := ws_send ws (Connected now (networks st)) st in
  if 0 <? length (messageHistory st)
  then ws_send ws (History (messageHistory st)) st
  else st.

(** The ['close'] handler. *)
Definition on_close (ws : WsId) (st : State) : State :=
  set_clients (Set_delete ws) st.

(** A client connects: the server accepts the socket and calls the
    ['connection'] handler with it. *)
Definition connect (now : string) (st : State) : State :=
  on_connection (length (sockets st)) now (accept st).

Section Relay.

(** The two library functions the relay calls: [JSON.parse], which
    returns a value or throws a [SyntaxError], and
    [ethers.toUtf8String], [None] when it throws. *)
Variable JSON_parse : string → Completion json.
Variable toUtf8String : string → option string.

Fixpoint runAdapter {A} (p : Adapter A) : A :=
  match p with
  | Done a => a
  | Decode payload k => runAdapter (k (toUtf8String payload))
  end.

(** The payloads [toUtf8String] was called on, in order. *)
Fixpoint decodeCalls {A} (p : Adapter A) : list string :=
  match p with
  | Done _ => []
  | Decode payload k => payload :: decodeCalls (k (toUtf8String payload))
  end.

(** The ['message'] handler with its [try]/[catch]. *)
Definition on_message (ws : WsId) (raw : string) (st : State) : State :=
  match JSON_parse raw with
  | Throw m => ws_send ws (Error m) st
  | Normal data_ =>
      match handleClientMessage ws data_ st with
      | Normal st' => st'
      | Throw m => ws_send ws (Error m) st
      end
  end.

(** The two listeners [startMonitoring] registers for [networkName]. *)
Definition on_ReceiveCrossChainMessage
    (networkName messageID sourceBlockchainID deliverer_ relayerRewardAddress : string)
    (teleporterMessage : TeleporterMessage) (now : string) (st : State) : State :=
  broadcastEvent
    (runAdapter (normalizeReceived networkName messageID sourceBlockchainID
                   deliverer_ relayerRewardAddress teleporterMessage now)) st.

Definition on_SendCrossChainMessage
    (networkName messageID destinationBlockchainID : string)
    (message_ : TeleporterMessageInput) (feeInfo : FeeInfo) (now : string)
    (st : State) : State :=
  broadcastEvent
    (runAdapter (normalizeSent networkName messageID destinationBlockchainID
                   message_ feeInfo now)) st.

(** The event an input makes the relay emit, if any. Listeners exist
    only for the networks of the configuration. *)
Definition emitted_by (nets : list string) (i : Input) : option Event :=
  match i with
  | ReceiveCrossChainMessage n mid src dl rra tm now =>
      if decide (n ∈ nets)
      then Some (runAdapter (normalizeReceived n mid src dl rra tm now))
      else None
  | SendCrossChainMessage n mid dst m fee now =>
      if decide (n ∈ nets)
      then Some (runAdapter (normalizeSent n mid dst m fee now))
      else None
  | _ => None
  end.

Definition emitted (nets : list string) (inputs : list Input) : list Event :=
  omap (emitted_by nets) inputs.

Definition step (st : State) (i : Input) : State :=
  match i with
  | Connection now => connect now st
  | ClientMessage ws raw => on_message ws raw st
  | Closing ws => set_sockets (alter (set_readyState CLOSING) ws) st
  | Close ws => on_close ws (set_sockets (alter (set_readyState CLOSED) ws) st)
  | ReceiveCrossChainMessage n mid src dl rra tm now =>
      if decide (n ∈ networks st)
      then on_ReceiveCrossChainMessage n mid src dl rra tm now st
      else st
  | SendCrossChainMessage n mid dst m fee now =>
      if decide (n ∈ networks st)
      then on_SendCrossChainMessage n mid dst m fee now st
      else st
  end.

Definition run (inputs : list Input) (st : State) : State :=
  foldl step st inputs.

End Relay.

(** ** Views of an outbox *)

(** The events of the [history] messages, and the events sent live. *)
Definition replayed (o : list ServerMsg) : list Event :=
  o ≫= λ m, match m with History es => es | _ => [] end.

Definition live (o : list ServerMsg) : list Event :=
  omap (λ m, match m with Live e => Some e | _ => None end) o.

(** ** Auxiliary notions *)

(** A sequence of emissions, as the listeners cause them one by one. *)
Definition broadcastEvents (es : list Event) (st : State) : State :=
  foldl (λ s e, broadcastEvent e s) st es.

Definition known_type (e : Event) : Prop :=
  type e = "message_sent"%string ∨ type e = "message_received"%string.

Definition sent_on (n : string) (h : list Event) : nat :=
  length (filter (λ e, network e = n ∧ type e = "message_sent"%string) h).

Definition received_on (n : string) (h : list Event) : nat :=
  length (filter (λ e, network e = n ∧ type e = "message_received"%string) h).

(** The sum of all counters of a [stats.networks]. *)
Definition stats_total (m : gmap string Counts) : nat :=
  map_fold (λ _ c acc, sent c + received c + acc) 0 m.

Definition bump (e : Event) (c : Counts) : Counts :=
  if decide (type e = "message_sent"%string)
  then {| sent := S (sent c); received := received c |}
  else {| sent := sent c; received := S (received c) |}.

(** The replies of [handleClientMessage] and of the [catch] block. *)
Definition is_reply (m : ServerMsg) : Prop :=
  match m with
  | Subscribed _ | Stats _ _ _ | Error _ => True
  | _ => False
  end.

Record wf (st : State) : Prop := {
  wf_types : Forall known_type (messageHistory st);
  wf_clients : NoDup (clients st);
  wf_bound : length (messageHistory st) ≤ maxHistorySize st;
  wf_capacity : maxHistorySize st = 100
}.

(** ** Statements compared with the code

    Each of these says, over the definitions above, what a sentence of the
    specification asks of the relay. *)

Definition occurrences (e : Event) (l : list Event) : nat :=
  length (filter (λ x, x = e) l).

(** An input that neither starts nor ends the closing of socket [ws]. *)
Definition leaves_open (ws : WsId) (i : Input) : Prop :=
  match i with
  | Closing w | Close w => w ≠ ws
  | _ => True
  end.

(** Every event emitted before or after a session connects is in its
    history replay or sent to it live, once in all. *)
Definition reaches_exactly_once
    (JSON_parse : string → Completion json) (toUtf8String : string → option string)
    (nets : list string) (before : list Input) (now : string) (after : list Input) : Prop :=
  let st1 := run JSON_parse toUtf8String before (constructor nets) in
  let ws := length (sockets st1) in
  let o := outbox_of ws (run JSON_parse toUtf8String (Connection now :: after) st1) in
  ∀ e, e ∈ emitted toUtf8String nets (before ++ after) →
       occurrences e (replayed o) + occurrences e (live o) = 1.

(** A session a broadcast could not deliver to leaves the registry on
    that account, at once or later: that is, without its socket's
    ['close'] event being needed for it. *)
Definition failure_triggers_removal
    (JSON_parse : string → Completion json) (toUtf8String : string → option string)
    (e : Event) (st : State) : Prop :=
  ∀ ws, ws ∈ clients st → is_open ws st = false →
        ∃ later, Forall (λ i, i ≠ Close ws) later ∧
                 ws ∉ clients (run JSON_parse toUtf8String later (broadcastEvent e st)).

(** A new session is sent the acknowledgement and then one history
    message with the whole ring, whatever the ring holds. *)
Definition connect_sends_ack_then_history (now : string) (st : State) : Prop :=
  outbox_of (length (sockets st)) (connect now st) =
    [Connected now (networks st); History (messageHistory st)].

(** The request [{type: "subscribe", networks: wanted}]. *)
Definition subscribe_request (wanted : list string) : json :=
  JObj [("type", JStr "subscribe"); ("networks", JArr (JStr <$> wanted))]%string.

(** What the relay holds about itself and its sessions, apart from the
    record of what was already sent. *)
Definition relay_memory (st : State) :
    list string * list WsId * list Event * nat * list ReadyState :=
  (networks st, clients st, messageHistory st, maxHistorySize st,
   readyState <$> sockets st).

(** A subscription is recorded: after requests for different lists of
    networks the relay holds different things. *)
Definition subscription_recorded (ws : WsId) (st : State) : Prop :=
  ∀ wanted1 wanted2 st1 st2,
    handleClientMessage ws (subscribe_request wanted1) st = Normal st1 →
    handleClientMessage ws (subscribe_request wanted2) st = Normal st2 →
    wanted1 ≠ wanted2 →
    relay_memory st1 ≠ relay_memory st2.

(** A subscription is applied: after a session has subscribed to
    [wanted], an event of a network outside [wanted] is not sent to it. *)
Definition subscription_filters_broadcast
    (ws : WsId) (wanted : list string) (e : Event) (st : State) : Prop :=
  ∀ st', handleClientMessage ws (subscribe_request wanted) st = Normal st' →
         network e ∉ wanted →
         live (outbox_of ws (broadcastEvent e st')) = live (outbox_of ws st').

(** A client message that does not parse, or parses to something whose
    [type] is neither of the two requests. *)
Definition malformed_or_unknown
    (JSON_parse : string → Completion json) (raw : string) : Prop :=
  match JSON_parse raw with
  | Throw _ => True
  | Normal d =>
      as_string (property "type" d) ≠ Some "subscribe"%string ∧
      as_string (property "type" d) ≠ Some "get_stats"%string
  end.

(** The event carries the decoded text, or else the payload as it came,
    flagged. *)
Definition carries_payload
    (toUtf8String : string → option string) (payload : string) (ev : Event) : Prop :=
  match toUtf8String payload with
  | Some text => message (data ev) = text ∧ messageType (data ev) = None
  | None => message (data ev) = payload ∧ messageType (data ev) = Some "hex"%string
  end.

(** From [st] to [st'] the event became the newest of the ring and was
    sent to every registered open session. *)
Definition appended_and_broadcast (ev : Event) (st st' : State) : Prop :=
  last (messageHistory st') = Some ev ∧
  ∀ ws, ws ∈ clients st → is_open ws st = true →
        outbox_of ws st' = outbox_of ws st ++ [Live ev].

(** ** A configuration and some traffic, for the examples *)

(** The networks the setup script writes to [network-config.json]. *)
Definition example_networks : list string := ["subnet1"; "subnet2"; "cchain"]%string.

(** The two library functions on the strings the examples use: the bytes
    [68 65 6c 6c 6f] are the text [hello] and the byte [ff] is not UTF-8;
    the empty string is not JSON. Their values elsewhere are not used. *)
Definition example_toUtf8String (payload : string) : option string :=
  if decide (payload = "0x68656c6c6f"%string) then Some "hello"%string else None.

Definition example_JSON_parse (raw : string) : Completion json :=
  if decide (raw = "null"%string) then Normal JNull
  else if decide (raw = "{}"%string) then Normal (JObj [])
  else if decide (raw = "[]"%string) then Normal (JArr [])
  else Throw "Unexpected end of JSON input".

Definition example_now : string := "2024-01-01T00:00:00.000Z".

Definition example_fee : FeeInfo :=
  {| feeTokenAddress := "0x0000000000000000000000000000000000000000"; amount := 0 |}.

(** The [k]-th message sent on network [n], a text. *)
Definition example_sent (n : string) (k : nat) : Input :=
  SendCrossChainMessage n (pretty k) "0xd357"
    {| ti_destinationBlockchainID := "0xd357";
       ti_destinationAddress := "0x8db97C7cEcE249c2b98bDC0226Cc4C2A57BF52FC";
       ti_feeInfo := example_fee; ti_requiredGasLimit := 100000;
       allowedRelayerAddresses := []; ti_message := "0x68656c6c6f" |}
    example_fee example_now.

(** The [k]-th message received on network [n], not a text. *)
Definition example_received (n : string) (k : nat) : Input :=
  ReceiveCrossChainMessage n (pretty k) "0x50c3"
    "0x8db97C7cEcE249c2b98bDC0226Cc4C2A57BF52FC"
    "0x0000000000000000000000000000000000000000"
    {| tm_sourceBlockchainID := "0x50c3";
       originSenderAddress := "0x8db97C7cEcE249c2b98bDC0226Cc4C2A57BF52FC";
       tm_message := "0xff" |}
    example_now.

Definition example_event (n : string) (k : nat) : Event :=
  runAdapter example_toUtf8String
    (normalizeSent n (pretty k) "0xd357"
       {| ti_destinationBlockchainID := "0xd357";
          ti_destinationAddress := "0x8db97C7cEcE249c2b98bDC0226Cc4C2A57BF52FC";
          ti_feeInfo := example_fee; ti_requiredGasLimit := 100000;
          allowedRelayerAddresses := []; ti_message := "0x68656c6c6f" |}
       example_fee example_now).

Definition example_run (inputs : list Input) : State :=
  run example_JSON_parse example_toUtf8String inputs (constructor example_networks).

(** ** Notions for the further properties *)

(** [ws.readyState], if the socket exists. *)
Definition ready_of (ws : WsId) (st : State) : option ReadyState :=
  readyState <$> sockets st !! ws.

(** The registry and the sockets agree: a registered session has a
    socket that is not closed, and an open socket is registered. *)
Definition registry_ok (st : State) : Prop :=
  (∀ ws, ws ∈ clients st → ∃ r, ready_of ws st = Some r ∧ r ≠ CLOSED) ∧
  (∀ ws, ready_of ws st = Some OPEN → ws ∈ clients st).

(** What a session is sent after its greeting: live events and replies. *)
Definition is_traffic (m : ServerMsg) : Prop :=
  match m with
  | Live _ | Subscribed _ | Stats _ _ _ | Error _ => True
  | Connected _ _ | History _ => False
  end.

(** ** Shutting down *)

(** [client.close()]: an open socket starts its closing handshake; on a
    closing or closed one the call does nothing. *)
Definition socket_close (s : Socket) : Socket :=
  match readyState s with
  | OPEN => set_readyState CLOSING s
  | _ => s
  end.

Definition ws_close (ws : WsId) (st : State) : State :=
  set_sockets (alter socket_close ws) st.

(** A relay after [start]: the relay object, whether the contract
    listeners of [startMonitoring] are still attached, and whether the
    server still accepts connections. *)
Record Process := {
  relay : State;
  listening : bool;
  serving : bool
}.

(** [start]: the server is created and the listeners are attached. *)
Definition start (st : State) : Process :=
  {| relay := st; listening := true; serving := true |}.

(** [stop]: [removeAllListeners] on every contract, [close] on every
    client, [close] on the server. *)
Definition stop (p : Process) : Process :=
  {| relay := foldl (λ st client, ws_close client st) (relay p) (clients (relay p));
     listening := false;
     serving := false |}.

Section Process.

Variable JSON_parse : string → Completion json.
Variable toUtf8String : string → option string.

(** A contract event reaches the relay while its listener is attached,
    a connection while the server accepts; the sockets that exist go on
    as before. *)
Definition process_step (p : Process) (i : Input) : Process :=
  let go := {| relay := step JSON_parse toUtf8String (relay p) i;
               listening := listening p; serving := serving p |} in
  match i with
  | Connection _ => if serving p then go else p
  | ReceiveCrossChainMessage _ _ _ _ _ _ _
  | SendCrossChainMessage _ _ _ _ _ _ => if listening p then go else p
  | ClientMessage _ _ | Closing _ | Close _ => go
  end.

Definition process_run (inputs : list Input) (p : Process) : Process :=
  foldl process_step p inputs.

End Process.

(** ** The example client

    The script of the page [createExampleClient] writes: its [onmessage]
    handler and [updateStats]. The page is what the script keeps and
    shows: its two variables, the children of [messageList] (first child
    first) and the text of the three counters, empty when [None]. *)

(** What [innerHTML] is filled with for one event; the time is kept as
    the string given to [new Date], its local rendering is the
    browser's. *)
Record MessageDiv := {
  className : string;
  icon : string;
  shown_network : string;
  action : string;
  otherChain : option string;
  shown_message : string;
  shown_timestamp : string
}.

Record Page := {
  messageCount : nat;
  messageTimestamps : list Z;
  messageList : list MessageDiv;
  totalMessages : option nat;
  messagesPerMinute : option nat;
  activeNetworks : option nat;
  clock_reads : nat
}.

(** The page as the HTML has it: the three counters show 0. *)
Definition initial_page : Page :=
  {| messageCount := 0; messageTimestamps := []; messageList := [];
     totalMessages := Some 0; messagesPerMinute := Some 0;
     activeNetworks := Some 0; clock_reads := 0 |}.

(** [s.replace(c, d)] with one-character strings: the first [c] becomes
    [d]. The client calls it with the underscore (95) and the hyphen
    (45). *)
Fixpoint replace_first (c d : Ascii.ascii) (s : string) : string :=
  match s with
  | EmptyString => EmptyString
  | String a s' =>
      if Ascii.eqb a c then String d s' else String a (replace_first c d s')
  end.

Definition render (e : Event) : MessageDiv :=
  let is_sent := bool_decide (type e = "message_sent"%string) in
  {| className := "message " +:+ replace_first (Ascii.ascii_of_nat 95) (Ascii.ascii_of_nat 45) (type e);
     icon := if is_sent then "📤" else "📨";
     shown_network := network e;
     action := if is_sent then "sent to" else "received from";
     otherChain := if is_sent then destinationChain e else sourceChain e;
     shown_message := message (data e);
     shown_timestamp := timestamp e |}.

(** [while (messageList.children.length > 50)
       messageList.removeChild(messageList.lastChild)] *)
Fixpoint remove_last_while_over (limit fuel : nat) (children : list MessageDiv)
    : list MessageDiv :=
  match fuel with
  | 0 => children
  | S fuel' =>
      if limit <? length children
      then remove_last_while_over limit fuel' (removelast children)
      else children
  end.

Definition keep_50 (children : list MessageDiv) : list MessageDiv :=
  remove_last_while_over 50 (length children) children.

(** The events a list of server messages carries, in the order the
    client meets them. *)
Definition shown (ms : list ServerMsg) : list Event :=
  ms ≫= λ m, match m with
             | History es => es
             | Live e => [e]
             | _ => []
             end.

Section Client.

(** [Date.now()]: the value of its [k]-th call. *)
Variable Date_now : nat → Z.

Definition updateStats (p : Page) : Page :=
  let now := Date_now (clock_reads p) in
  let oneMinuteAgo := (now - 60000)%Z in
  {| messageCount := messageCount p;
     messageTimestamps := messageTimestamps p;
     messageList := messageList p;
     totalMessages := Some (messageCount p);
     messagesPerMinute :=
       Some (length (filter (λ ts, (oneMinuteAgo < ts)%Z) (messageTimestamps p)));
     activeNetworks := activeNetworks p;
     clock_reads := S (clock_reads p) |}.

(** The branch for [message_sent] and [message_received]. *)
Definition show_event (e : Event) (p : Page) : Page :=
  updateStats
    {| messageCount := S (messageCount p);
       messageTimestamps := messageTimestamps p ++ [Date_now (clock_reads p)];
       messageList := keep_50 (render e :: messageList p);
       totalMessages := totalMessages p;
       messagesPerMinute := messagesPerMinute p;
       activeNetworks := activeNetworks p;
       clock_reads := S (clock_reads p) |}.

(** [onmessage] on the text of one event; the flag tells whether the
    handler threw. An event whose [type] is [stats] or [history] has
    none of the fields those branches read: the first empties the total
    and then throws on [Object.keys(undefined)], the second throws on
    [undefined.forEach]. *)
Definition onmessage_event (e : Event) (p : Page) : Page * bool :=
  if decide (type e = "message_sent"%string ∨ type e = "message_received"%string)
  then (show_event e p, false)
  else if decide (type e = "stats"%string) then
    ({| messageCount := messageCount p; messageTimestamps := messageTimestamps p;
        messageList := messageList p; totalMessages := None;
        messagesPerMinute := messagesPerMinute p;
        activeNetworks := activeNetworks p; clock_reads := clock_reads p |}, true)
  else if decide (type e = "history"%string) then (p, true)
  else (p, false).

(** [data.messages.forEach(msg => ws.onmessage({ data: JSON.stringify(msg) }))]:
    a throw ends the loop. *)
Fixpoint forEach_message (es : list Event) (p : Page) : Page * bool :=
  match es with
  | [] => (p, false)
  | e :: es' =>
      let '(p', thrown) := onmessage_event e p in
      if thrown then (p', true) else forEach_message es' p'
  end.

(** [ws.onmessage] on a message of the relay. *)
Definition onmessage (m : ServerMsg) (p : Page) : Page * bool :=
  match m with
  | Live e => onmessage_event e p
  | Stats total _ nets =>
      ({| messageCount := messageCount p; messageTimestamps := messageTimestamps p;
          messageList := messageList p; totalMessages := Some total;
          messagesPerMinute := messagesPerMinute p;
          activeNetworks := Some (size nets); clock_reads := clock_reads p |}, false)
  | History es => forEach_message es p
  | Connected _ _ | Subscribed _ | Error _ => (p, false)
  end.

(** The page after the messages [ms], and whether any handler threw. *)
Definition client_run (ms : list ServerMsg) (p : Page) : Page * bool :=
  foldl (λ acc m, let '(p', thrown) := onmessage m acc.1 in (p', acc.2 || thrown))
        (p, false) ms.

End Client.

(** The text the example client sends, [JSON.stringify({ type: 'get_stats' })]
    (34 is the double quote), and a parser that knows it. *)
Definition get_stats_text : string :=
  let q := String (Ascii.ascii_of_nat 34) EmptyString in
  "{" +:+ q +:+ "type" +:+ q +:+ ":" +:+ q +:+ "get_stats" +:+ q +:+ "}".

Definition example_JSON_parse_requests (raw : string) : Completion json :=
  if decide (raw = get_stats_text)
  then Normal (JObj [("type", JStr "get_stats")]%string)
  else example_JSON_parse raw.

(** A clock for the examples: one millisecond per reading. *)
Definition example_clock (k : nat) : Z := (1700000000000 + Z.of_nat k)%Z.

(** * Properties *)

(** ** What the primitives leave alone *)

Lemma ws_send_fields ws msg st :
  networks (ws_send ws msg st) = networks st ∧
  clients (ws_send ws msg st) = clients st ∧
  messageHistory (ws_send ws msg st) = messageHistory st ∧
  maxHistorySize (ws_send ws msg st) = maxHistorySize st ∧
  length (sockets (ws_send ws msg st)) = length (sockets st).
Proof. unfold ws_send; simpl. by rewrite length_alter. Qed.

Lemma deliver_fields msg st c :
  networks (deliver msg st c) = networks st ∧
  clients (deliver msg st c) = clients st ∧
  messageHistory (deliver msg st c) = messageHistory st ∧
  maxHistorySize (deliver msg st c) = maxHistorySize st ∧
  length (sockets (deliver msg st c)) = length (sockets st).
Proof.
  unfold deliver. destruct (is_open c st); [apply ws_send_fields | done].
Qed.

Lemma foldl_deliver_fields msg cs st :
  networks (foldl (deliver msg) st cs) = networks st ∧
  clients (foldl (deliver msg) st cs) = clients st ∧
  messageHistory (foldl (deliver msg) st cs) = messageHistory st ∧
  maxHistorySize (foldl (deliver msg) st cs) = maxHistorySize st ∧
  length (sockets (foldl (deliver msg) st cs)) = length (sockets st).
Proof.
  revert st. induction cs as [|c cs IH]; intros st; simpl; [done|].
  destruct (IH (deliver msg st c)) as (-> & -> & -> & -> & ->).
  apply deliver_fields.
Qed.

Lemma history_shift_fields st :
  networks (history_shift st) = networks st ∧
  clients (history_shift st) = clients st ∧
  maxHistorySize (history_shift st) = maxHistorySize st ∧
  sockets (history_shift st) = sockets st.
Proof. unfold history_shift. by case_match. Qed.

(** ** The history ring *)

(** The ring after one [broadcastEvent]. *)
Lemma messageHistory_broadcastEvent e st :
  messageHistory (broadcastEvent e st) =
    if maxHistorySize st <? length (messageHistory st ++ [e])
    then drop 1 (messageHistory st ++ [e])
    else messageHistory st ++ [e].
Proof.
  unfold broadcastEvent.
  destruct (foldl_deliver_fields (Live e)
              (clients (history_shift (history_push e st)))
              (history_shift (history_push e st))) as (_ & _ & -> & _).
  unfold history_shift, history_push; simpl. by case_match.
Qed.

Lemma maxHistorySize_broadcastEvent e st :
  maxHistorySize (broadcastEvent e st) = maxHistorySize st.
Proof.
  unfold broadcastEvent.
  destruct (foldl_deliver_fields (Live e)
              (clients (history_shift (history_push e st)))
              (history_shift (history_push e st))) as (_ & _ & _ & -> & _).
  by destruct (history_shift_fields (history_push e st)) as (_ & _ & -> & _).
Qed.

(** From a ring within its capacity, the ring holds the newest
    [maxHistorySize] events of everything it was given. *)
Lemma messageHistory_broadcastEvents es st :
  length (messageHistory st) ≤ maxHistorySize st →
  messageHistory (broadcastEvents es st) =
    drop (length (messageHistory st ++ es) - maxHistorySize st)
         (messageHistory st ++ es).
Proof.
  revert st. induction es as [|e es IH]; intros st Hle.
  - simpl. rewrite app_nil_r.
    replace (length (messageHistory st) - maxHistorySize st) with 0 by lia.
    done.
  - unfold broadcastEvents in *; simpl.
    pose proof (messageHistory_broadcastEvent e st) as Hm.
    pose proof (maxHistorySize_broadcastEvent e st) as Hc.
    rewrite length_app in Hm; simpl in Hm.
    destruct (maxHistorySize st <? length (messageHistory st) + 1) eqn:Hlt.
    + apply Nat.ltb_lt in Hlt.
      assert (length (messageHistory st) = maxHistorySize st) as Hfull by lia.
      rewrite IH.
      2:{ rewrite Hm, Hc, length_drop, length_app; simpl. lia. }
      rewrite Hm, Hc.
      assert (drop 1 (messageHistory st ++ [e]) ++ es
              = drop 1 (messageHistory st ++ e :: es)) as ->.
      { destruct (messageHistory st) as [|x h] eqn:Hh; simpl in *.
        - rewrite <- Hfull in *. done.
        - rewrite !drop_0. by rewrite <- app_assoc. }
      rewrite drop_drop. f_equal.
      rewrite length_drop, !length_app; simpl. lia.
    + apply Nat.ltb_ge in Hlt.
      rewrite IH.
      2:{ rewrite Hm, Hc, length_app; simpl. lia. }
      rewrite Hm, Hc, <- app_assoc. done.
Qed.

(** ** Statistics over the ring *)

Lemma count_message_lookup m e n :
  count_message m e !! n =
    if decide (network e = n)
    then match m !! n with
         | Some c => Some (bump e c)
         | None =>
             if inherited n then None
             else Some (bump e {| sent := 0; received := 0 |})
         end
    else m !! n.
Proof.
  unfold count_message, bump.
  destruct (decide (network e = n)) as [<-|Hne].
  - destruct (m !! network e) as [c|] eqn:Hm;
      [|destruct (inherited (network e))];
      destruct (decide (type e = "message_sent"%string));
      rewrite lookup_alter_eq, ?Hm, ?lookup_insert_eq; done.
  - destruct (m !! network e) as [c|] eqn:Hm;
      [|destruct (inherited (network e))];
      destruct (decide (type e = "message_sent"%string));
      rewrite lookup_alter_ne, ?lookup_insert_ne by done; done.
Qed.

(** An event of a network whose name [stats.networks] inherits, and of
    which it has no entry, leaves [stats.networks] as it is. *)
Lemma count_message_inherited m e :
  inherited (network e) = true → m !! network e = None →
  count_message m e = m.
Proof.
  intros Hi Hm. apply map_eq; intros n. rewrite count_message_lookup.
  destruct (decide (network e = n)) as [<-|Hne]; [|done].
  by rewrite Hm, Hi.
Qed.

Lemma count_message_insert m e :
  inherited (network e) = false →
  count_message m e =
    <[network e := bump e (default {| sent := 0; received := 0 |} (m !! network e))]> m.
Proof.
  intros Hi. apply map_eq; intros n. rewrite count_message_lookup.
  destruct (decide (network e = n)) as [<-|Hne].
  - rewrite lookup_insert_eq, Hi. by destruct (m !! network e).
  - by rewrite lookup_insert_ne.
Qed.

Lemma stats_networks_snoc h e :
  stats_networks (h ++ [e]) = count_message (stats_networks h) e.
Proof. unfold stats_networks. by rewrite foldl_snoc. Qed.

Lemma sent_on_snoc n h e :
  sent_on n (h ++ [e]) =
    sent_on n h +
    (if decide (network e = n ∧ type e = "message_sent"%string) then 1 else 0).
Proof.
  unfold sent_on. rewrite filter_app, length_app. f_equal.
  rewrite filter_cons, filter_nil. by case_decide.
Qed.

Lemma received_on_snoc n h e :
  received_on n (h ++ [e]) =
    received_on n h +
    (if decide (network e = n ∧ type e = "message_received"%string) then 1 else 0).
Proof.
  unfold received_on. rewrite filter_app, length_app. f_equal.
  rewrite filter_cons, filter_nil. by case_decide.
Qed.

Lemma sent_on_absent n h : n ∉ network <$> h → sent_on n h = 0.
Proof.
  unfold sent_on. induction h as [|e h IH]; intros Hn; [done|].
  rewrite fmap_cons, not_elem_of_cons in Hn. destruct Hn as [Hne Hn].
  rewrite filter_cons_False; [auto|]. intros [? _]. by apply Hne.
Qed.

Lemma received_on_absent n h : n ∉ network <$> h → received_on n h = 0.
Proof.
  unfold received_on. induction h as [|e h IH]; intros Hn; [done|].
  rewrite fmap_cons, not_elem_of_cons in Hn. destruct Hn as [Hne Hn].
  rewrite filter_cons_False; [auto|]. intros [? _]. by apply Hne.
Qed.

(** [stats.networks] never gets an entry under a name that it inherits. *)
Lemma stats_networks_inherited h n :
  inherited n = true → stats_networks h !! n = None.
Proof.
  intros Hi. induction h as [|e h IH] using rev_ind; [done|].
  rewrite stats_networks_snoc, count_message_lookup.
  destruct (decide (network e = n)) as [_|_]; [|done].
  by rewrite IH, Hi.
Qed.

(** The entry of a network in [stats.networks], when every event of the
    ring is of one of the two kinds the listeners build. *)
Lemma stats_networks_lookup h n :
  Forall known_type h →
  stats_networks h !! n =
    if decide (n ∈ network <$> h)
    then if inherited n then None
         else Some {| sent := sent_on n h; received := received_on n h |}
    else None.
Proof.
  destruct (inherited n) eqn:Hi.
  { intros _. rewrite stats_networks_inherited by done. by case_decide. }
  induction h as [|e h IH] using rev_ind; intros Hk.
  - rewrite decide_False by (rewrite fmap_nil; apply not_elem_of_nil). done.
  - apply Forall_app in Hk as [Hk He]. rewrite Forall_singleton in He.
    rewrite stats_networks_snoc, count_message_lookup, (IH Hk).
    rewrite sent_on_snoc, received_on_snoc, fmap_app; simpl.
    destruct (decide (network e = n)) as [<-|Hne].
    + rewrite (decide_True (P := network e ∈ _ ++ _)) by set_solver.
      unfold bump. rewrite Hi.
      destruct (decide (network e ∈ network <$> h)) as [Hin|Hin]; simpl.
      * destruct He as [He|He]; rewrite He; simpl;
          repeat case_decide; try (intuition congruence);
          f_equal; f_equal; lia.
      * rewrite (sent_on_absent _ _ Hin), (received_on_absent _ _ Hin).
        destruct He as [He|He]; rewrite He; simpl;
          repeat case_decide; try (intuition congruence); done.
    + rewrite !(decide_False (P := network e = n ∧ _)) by (intros [? _]; done).
      rewrite !Nat.add_0_r.
      destruct (decide (n ∈ network <$> h)) as [Hin|Hin].
      * rewrite decide_True; [done|]. apply elem_of_app. by left.
      * rewrite decide_False; [done|]. rewrite elem_of_app, list_elem_of_singleton.
        intros [?|?]; [done | congruence].
Qed.

Lemma stats_total_insert_fresh m n c :
  m !! n = None →
  stats_total (<[n := c]> m) = sent c + received c + stats_total m.
Proof.
  intros Hn. unfold stats_total. rewrite map_fold_insert_L; [done| |done].
  intros; lia.
Qed.

Lemma stats_total_insert m n c :
  stats_total (<[n := c]> m) +
    match m !! n with Some c' => sent c' + received c' | None => 0 end
  = sent c + received c + stats_total m.
Proof.
  destruct (m !! n) as [c'|] eqn:Hn.
  - assert (stats_total m = sent c' + received c' + stats_total (delete n m)) as ->.
    { rewrite <- (insert_delete_id m n c') at 1 by done.
      apply stats_total_insert_fresh, lookup_delete_eq. }
    rewrite <- (insert_delete_eq m n c).
    rewrite stats_total_insert_fresh by apply lookup_delete_eq. lia.
  - rewrite stats_total_insert_fresh by done. lia.
Qed.

Lemma stats_total_count_message m e :
  inherited (network e) = false →
  stats_total (count_message m e) = S (stats_total m).
Proof.
  intros Hi. rewrite count_message_insert by done.
  pose proof (stats_total_insert m (network e)
                (bump e (default {| sent := 0; received := 0 |} (m !! network e)))) as H.
  unfold bump in *.
  destruct (m !! network e) as [c|]; simpl in *;
    destruct (decide (type e = "message_sent"%string)); simpl in *; lia.
Qed.

(** The counters of [stats.networks] add up to the number of events of
    the ring whose network has a name that is not inherited. *)
Lemma stats_total_networks h :
  stats_total (stats_networks h) =
    length (filter (λ e, inherited (network e) = false) h).
Proof.
  induction h as [|e h IH] using rev_ind; [done|].
  rewrite stats_networks_snoc, filter_app, length_app, filter_cons, filter_nil.
  destruct (inherited (network e)) eqn:Hi.
  - rewrite count_message_inherited by auto using stats_networks_inherited.
    rewrite decide_False by done. simpl. lia.
  - rewrite stats_total_count_message, IH by done.
    rewrite decide_True by done. simpl. lia.
Qed.

(** The entries of [stats.networks] are the networks of the ring whose
    names it does not inherit. *)
Lemma dom_stats_networks h :
  dom (stats_networks h) =
    list_to_set (filter (λ n, inherited n = false) (network <$> h)).
Proof.
  induction h as [|e h IH] using rev_ind.
  - unfold stats_networks; simpl. apply dom_empty_L.
  - rewrite stats_networks_snoc, fmap_app, filter_app, list_to_set_app_L, <- IH.
    simpl. rewrite filter_cons, filter_nil.
    destruct (inherited (network e)) eqn:Hi.
    + rewrite count_message_inherited by auto using stats_networks_inherited.
      rewrite decide_False by done. simpl. by rewrite union_empty_r_L.
    + rewrite count_message_insert, dom_insert_L by done.
      rewrite decide_True by done. simpl.
      by rewrite union_empty_r_L, (comm_L (∪)).
Qed.

Lemma filter_ordinary_names h :
  Forall (λ e, inherited (network e) = false) h →
  filter (λ e, inherited (network e) = false) h = h.
Proof.
  induction 1 as [|e h He _ IH]; [done|].
  by rewrite filter_cons_True, IH.
Qed.

Lemma filter_ordinary_names_lt h :
  Exists (λ e, inherited (network e) = true) h →
  length (filter (λ e, inherited (network e) = false) h) < length h.
Proof.
  induction 1 as [e l He|e l _ IH].
  - rewrite filter_cons_False by congruence.
    pose proof (length_filter (λ e, inherited (network e) = false) l).
    simpl. lia.
  - rewrite filter_cons. case_decide; simpl; lia.
Qed.

(** ** Sockets under the handlers *)

Lemma socket_send_readyState msg s :
  readyState (socket_send msg s) = readyState s.
Proof. unfold socket_send. by destruct (readyState s) eqn:E; simpl. Qed.

Lemma socket_send_outbox msg s :
  outbox (socket_send msg s) =
    outbox s ++ (if decide (readyState s = OPEN) then [msg] else []).
Proof.
  unfold socket_send.
  destruct (readyState s) eqn:E; simpl; rewrite ?E; simpl; by rewrite ?app_nil_r.
Qed.

(** The guard [client.readyState === WebSocket.OPEN] of the loop lets
    through exactly the sockets on which [send] has an effect. *)
Lemma alter_socket_send_closed msg (ss : list Socket) c :
  (∀ s, ss !! c = Some s → readyState s ≠ OPEN) →
  alter (socket_send msg) c ss = ss.
Proof.
  intros Hc. apply list_eq; intros i.
  destruct (decide (c = i)) as [E|Hne]; [subst i|].
  - rewrite list_lookup_alter_eq.
    destruct (ss !! c) as [s|] eqn:Hs; [simpl|done]. f_equal.
    specialize (Hc s eq_refl). unfold socket_send. by destruct (readyState s).
  - by rewrite list_lookup_alter_ne.
Qed.

Lemma deliver_ws_send msg st c : deliver msg st c = ws_send c msg st.
Proof.
  unfold deliver, is_open, ws_send, set_sockets.
  destruct st as [n cl h m ss]; simpl.
  destruct (ss !! c) as [s|] eqn:Hs.
  - case_bool_decide as Ho; [done|]. f_equal.
    symmetry. apply alter_socket_send_closed. intros s' Hs'. by simplify_eq.
  - f_equal. symmetry. apply alter_socket_send_closed. intros s' Hs'. by simplify_eq.
Qed.

Lemma sockets_ws_send_lookup ws msg st i :
  sockets (ws_send ws msg st) !! i =
    (if decide (ws = i) then socket_send msg else id) <$> sockets st !! i.
Proof.
  unfold ws_send; simpl. case_decide as E.
  - subst. apply list_lookup_alter_eq.
  - rewrite list_lookup_alter_ne by done. by destruct (sockets st !! i).
Qed.

Lemma sockets_foldl_deliver_lookup msg cs st i :
  NoDup cs →
  sockets (foldl (deliver msg) st cs) !! i =
    (if decide (i ∈ cs) then socket_send msg else id) <$> sockets st !! i.
Proof.
  revert st. induction cs as [|c cs IH]; intros st Hnd; cbn [foldl].
  - rewrite decide_False by apply not_elem_of_nil. by destruct (sockets st !! i).
  - apply NoDup_cons in Hnd as [Hc Hnd].
    rewrite IH by done. rewrite deliver_ws_send, sockets_ws_send_lookup.
    destruct (sockets st !! i) as [s|]; [simpl|done]. f_equal.
    destruct (decide (c = i)) as [->|Hne].
    + rewrite (decide_False (P := i ∈ cs)) by done.
      rewrite decide_True by (apply elem_of_cons; by left). done.
    + destruct (decide (i ∈ cs)) as [Hin|Hin].
      * rewrite decide_True by (apply elem_of_cons; by right). done.
      * rewrite decide_False; [done|]. rewrite elem_of_cons. intros [?|?]; congruence.
Qed.

Lemma sockets_broadcastEvent_lookup e st i :
  NoDup (clients st) →
  sockets (broadcastEvent e st) !! i =
    (if decide (i ∈ clients st) then socket_send (Live e) else id) <$> sockets st !! i.
Proof.
  intros Hnd. unfold broadcastEvent.
  destruct (history_shift_fields (history_push e st)) as (_ & Hc & _ & Hs).
  rewrite sockets_foldl_deliver_lookup by (by rewrite Hc).
  by rewrite Hc, Hs.
Qed.

Lemma broadcastEvent_fields e st :
  networks (broadcastEvent e st) = networks st ∧
  clients (broadcastEvent e st) = clients st ∧
  maxHistorySize (broadcastEvent e st) = maxHistorySize st ∧
  length (sockets (broadcastEvent e st)) = length (sockets st).
Proof.
  unfold broadcastEvent.
  destruct (foldl_deliver_fields (Live e)
              (clients (history_shift (history_push e st)))
              (history_shift (history_push e st))) as (-> & -> & _ & -> & ->).
  by destruct (history_shift_fields (history_push e st)) as (-> & -> & -> & ->).
Qed.


(** ** Outboxes under the handlers *)

Lemma outbox_of_ws_send ws msg st i :
  outbox_of i (ws_send ws msg st) =
    outbox_of i st ++
    (if decide (ws = i) then if is_open i st then [msg] else [] else []).
Proof.
  unfold outbox_of, is_open. rewrite sockets_ws_send_lookup.
  destruct (sockets st !! i) as [s|]; simpl; [|by case_decide].
  case_decide; simpl; [|by rewrite app_nil_r].
  rewrite socket_send_outbox. by case_bool_decide; case_decide.
Qed.

Lemma is_open_ws_send ws msg st i :
  is_open i (ws_send ws msg st) = is_open i st.
Proof.
  unfold is_open. rewrite sockets_ws_send_lookup.
  destruct (sockets st !! i) as [s|]; simpl; [|done].
  case_decide; simpl; [|done]. by rewrite socket_send_readyState.
Qed.

Lemma outbox_of_broadcastEvent e st i :
  NoDup (clients st) →
  outbox_of i (broadcastEvent e st) =
    outbox_of i st ++
    (if decide (i ∈ clients st) then if is_open i st then [Live e] else [] else []).
Proof.
  intros Hnd. unfold outbox_of, is_open.
  rewrite sockets_broadcastEvent_lookup by done.
  destruct (sockets st !! i) as [s|]; simpl; [|by case_decide].
  case_decide; simpl; [|by rewrite app_nil_r].
  rewrite socket_send_outbox. by case_bool_decide; case_decide.
Qed.

Lemma is_open_broadcastEvent e st i :
  NoDup (clients st) →
  is_open i (broadcastEvent e st) = is_open i st.
Proof.
  intros Hnd. unfold is_open. rewrite sockets_broadcastEvent_lookup by done.
  destruct (sockets st !! i) as [s|]; simpl; [|done].
  case_decide; simpl; [|done]. by rewrite socket_send_readyState.
Qed.

Lemma is_open_lt ws st : is_open ws st = true → ws < length (sockets st).
Proof.
  unfold is_open. destruct (sockets st !! ws) as [s|] eqn:Hs; [|done].
  intros _. by eapply lookup_lt_Some.
Qed.

Lemma replayed_snoc_reply o m : is_reply m → replayed (o ++ [m]) = replayed o.
Proof.
  intros Hm. unfold replayed. rewrite bind_app; simpl.
  destruct m; try done; by rewrite app_nil_r.
Qed.

Lemma live_snoc_reply o m : is_reply m → live (o ++ [m]) = live o.
Proof.
  intros Hm. unfold live. rewrite omap_app; simpl.
  destruct m; try done; by rewrite app_nil_r.
Qed.

Lemma live_snoc_Live o e : live (o ++ [Live e]) = live o ++ [e].
Proof. unfold live. by rewrite omap_app. Qed.

Lemma replayed_snoc_Live o e : replayed (o ++ [Live e]) = replayed o.
Proof. unfold replayed. rewrite bind_app; simpl. by rewrite app_nil_r. Qed.

(** ** Invariants of the running relay *)

Lemma wf_constructor nets : wf (constructor nets).
Proof. split; simpl; [constructor | constructor | lia | done]. Qed.

Lemma NoDup_Set_add ws s : NoDup s → NoDup (Set_add ws s).
Proof.
  intros Hs. unfold Set_add. case_decide; [done|].
  apply NoDup_app. split_and!; [done| |apply NoDup_singleton].
  intros x Hx Hx'. apply list_elem_of_singleton in Hx'. by subst.
Qed.

Lemma NoDup_Set_delete ws s : NoDup s → NoDup (Set_delete ws s).
Proof. apply NoDup_filter. Qed.

Lemma wf_broadcastEvent e st : known_type e → wf st → wf (broadcastEvent e st).
Proof.
  intros He [Ht Hc Hb Hcap].
  destruct (broadcastEvent_fields e st) as (_ & Hcl & Hm & _).
  pose proof (messageHistory_broadcastEvent e st) as Hh.
  rewrite length_app in Hh; simpl in Hh.
  assert (Forall known_type (messageHistory st ++ [e])) as Hall.
  { apply Forall_app. split; [done|]. by apply Forall_singleton. }
  split.
  - rewrite Hh. case_match; [by apply Forall_drop | done].
  - by rewrite Hcl.
  - rewrite Hh, Hm. case_match eqn:Hlt.
    + rewrite length_drop, length_app; simpl. lia.
    + apply Nat.ltb_ge in Hlt. rewrite length_app; simpl. lia.
  - by rewrite Hm.
Qed.


(** ** A client connects *)

Lemma alter_snoc {A} (f : A → A) (l : list A) (x : A) :
  alter f (length l) (l ++ [x]) = l ++ [f x].
Proof. induction l as [|y l IH]; simpl; [done|]. by f_equal. Qed.

(** The new socket is open and has been sent the acknowledgement and,
    when the ring is not empty, the history; nothing else has changed but
    the registry, which now holds it. *)
Lemma connect_state now st :
  connect now st =
    {| networks := networks st;
       clients := Set_add (length (sockets st)) (clients st);
       messageHistory := messageHistory st;
       maxHistorySize := maxHistorySize st;
       sockets := sockets st ++
         [{| readyState := OPEN;
             outbox := Connected now (networks st) ::
                       (if decide (messageHistory st = []) then []
                        else [History (messageHistory st)]) |}] |}.
Proof.
  unfold connect, on_connection, accept, ws_send, set_sockets, set_clients; simpl.
  destruct (messageHistory st) as [|e h] eqn:Hh; simpl.
  - by rewrite alter_snoc.
  - rewrite alter_snoc; simpl. by rewrite alter_snoc.
Qed.

Lemma outbox_of_connect_new now st :
  outbox_of (length (sockets st)) (connect now st) =
    Connected now (networks st) ::
    (if decide (messageHistory st = []) then [] else [History (messageHistory st)]).
Proof.
  rewrite connect_state. unfold outbox_of; simpl.
  by rewrite lookup_app_r, Nat.sub_diag by lia.
Qed.

Lemma is_open_connect_new now st :
  is_open (length (sockets st)) (connect now st) = true.
Proof.
  rewrite connect_state. unfold is_open; simpl.
  by rewrite lookup_app_r, Nat.sub_diag by lia.
Qed.

Lemma sockets_connect_old now st i :
  i < length (sockets st) → sockets (connect now st) !! i = sockets st !! i.
Proof. intros Hi. rewrite connect_state; simpl. by apply lookup_app_l. Qed.

Lemma new_in_clients_connect now st :
  length (sockets st) ∈ clients (connect now st).
Proof.
  rewrite connect_state; simpl. unfold Set_add.
  case_decide; [done|]. apply elem_of_app. right. by apply list_elem_of_singleton.
Qed.

Lemma elem_of_Set_add ws c s : c ∈ s → c ∈ Set_add ws s.
Proof. unfold Set_add. case_decide; [done|]. intros. apply elem_of_app. by left. Qed.

Lemma elem_of_Set_delete ws c s : c ∈ Set_delete ws s ↔ c ∈ s ∧ c ≠ ws.
Proof. unfold Set_delete. rewrite list_elem_of_filter. tauto. Qed.

Section RelayFacts.

Variable JSON_parse : string → Completion json.
Variable toUtf8String : string → option string.

Local Abbreviation rstep := (step JSON_parse toUtf8String).
Local Abbreviation rrun := (run JSON_parse toUtf8String).
Local Abbreviation ron_message := (on_message JSON_parse).
Local Abbreviation remitted_by := (emitted_by toUtf8String).
Local Abbreviation remitted := (emitted toUtf8String).

(** The ['message'] handler always ends in exactly one [ws.send] of a
    reply on the socket the message came from. *)
Lemma on_message_reply ws raw st :
  ∃ m, is_reply m ∧ ron_message ws raw st = ws_send ws m st.
Proof.
  unfold on_message.
  destruct (JSON_parse raw) as [d|m]; [|by exists (Error m)].
  unfold handleClientMessage.
  destruct d; try (by eexists (Error _));
    repeat case_decide; by eexists; split; [|reflexivity].
Qed.

Lemma on_message_fields ws raw st :
  networks (ron_message ws raw st) = networks st ∧
  clients (ron_message ws raw st) = clients st ∧
  messageHistory (ron_message ws raw st) = messageHistory st ∧
  maxHistorySize (ron_message ws raw st) = maxHistorySize st ∧
  length (sockets (ron_message ws raw st)) = length (sockets st).
Proof.
  destruct (on_message_reply ws raw st) as (m & _ & ->). apply ws_send_fields.
Qed.

Lemma emitted_by_known_type nets i e :
  remitted_by nets i = Some e → known_type e.
Proof.
  destruct i; simpl; try done; case_decide; intros; simplify_eq;
    [by right | by left].
Qed.

(** A step either leaves the ring alone or is one [broadcastEvent]. *)
Lemma step_emitted st i :
  match remitted_by (networks st) i with
  | Some e => rstep st i = broadcastEvent e st
  | None => messageHistory (rstep st i) = messageHistory st
  end.
Proof.
  destruct i; simpl; try done.
  - unfold connect, on_connection. case_match; done.
  - apply on_message_fields.
  - by case_decide.
  - by case_decide.
Qed.

Lemma step_fields st i :
  networks (rstep st i) = networks st ∧
  maxHistorySize (rstep st i) = maxHistorySize st.
Proof.
  pose proof (step_emitted st i) as He.
  destruct (remitted_by (networks st) i) as [e|] eqn:Hi.
  { rewrite He. pose proof (broadcastEvent_fields e st). tauto. }
  clear He. destruct i; simpl in *; try done.
  - unfold connect, on_connection. case_match; done.
  - pose proof (on_message_fields ws raw st). tauto.
  - by case_decide.
  - by case_decide.
Qed.

Lemma wf_step st i : wf st → wf (rstep st i).
Proof.
  intros Hwf.
  pose proof (step_emitted st i) as He.
  destruct (remitted_by (networks st) i) as [e|] eqn:Hi.
  { rewrite He. apply wf_broadcastEvent; [|done].
    by eapply emitted_by_known_type. }
  destruct (step_fields st i) as [_ Hm].
  destruct Hwf as [Ht Hc Hb Hcap].
  split; rewrite ?He, ?Hm; try done.
  clear He Hm. destruct i; simpl in *.
  - unfold connect, on_connection. case_match; simpl; by apply NoDup_Set_add.
  - by destruct (on_message_fields ws raw st) as (_ & -> & _).
  - done.
  - by apply NoDup_Set_delete.
  - by case_decide.
  - by case_decide.
Qed.

Lemma wf_run inputs st : wf st → wf (rrun inputs st).
Proof.
  revert st. induction inputs as [|i inputs IH]; intros st Hwf; [done|].
  apply IH, wf_step, Hwf.
Qed.

Lemma networks_run inputs st : networks (rrun inputs st) = networks st.
Proof.
  revert st. induction inputs as [|i inputs IH]; intros st; [done|].
  unfold run in *; simpl. rewrite IH. apply step_fields.
Qed.

Lemma emitted_cons nets i inputs :
  remitted nets (i :: inputs) =
    match remitted_by nets i with
    | Some e => e :: remitted nets inputs
    | None => remitted nets inputs
    end.
Proof. done. Qed.

Lemma run_cons i inputs st : rrun (i :: inputs) st = rrun inputs (rstep st i).
Proof. done. Qed.

(** The ring of a running relay is made of the emitted events alone:
    it is the ring [broadcastEvent] builds from them, on any state that
    starts with the same ring and capacity. *)
Lemma messageHistory_run nets inputs st st' :
  networks st = nets →
  messageHistory st = messageHistory st' →
  maxHistorySize st = maxHistorySize st' →
  messageHistory (rrun inputs st) =
    messageHistory (broadcastEvents (remitted nets inputs) st').
Proof.
  revert st st'. induction inputs as [|i inputs IH]; intros st st' Hn Hh Hm; [done|].
  rewrite run_cons, emitted_cons.
  destruct (step_fields st i) as [Hn' Hm'].
  pose proof (step_emitted st i) as He. rewrite Hn in He.
  destruct (remitted_by nets i) as [e|].
  - change (broadcastEvents (e :: remitted nets inputs) st')
      with (broadcastEvents (remitted nets inputs) (broadcastEvent e st')).
    apply IH; [congruence| |].
    + rewrite He, !messageHistory_broadcastEvent. by rewrite Hh, Hm.
    + by rewrite Hm', !maxHistorySize_broadcastEvent.
  - apply IH; congruence.
Qed.

(** From the constructor, the ring is the last hundred emitted events. *)
Lemma messageHistory_run_constructor nets inputs :
  messageHistory (rrun inputs (constructor nets)) =
    drop (length (remitted nets inputs) - 100) (remitted nets inputs).
Proof.
  rewrite (messageHistory_run nets inputs (constructor nets) (constructor nets)) by done.
  rewrite messageHistory_broadcastEvents by (simpl; lia). done.
Qed.

(** One step seen from a registered, open session that the step does
    not close: it stays registered and open, no history is sent to it, and
    it is sent live exactly the event the step emits, if any. *)
Lemma step_session ws st i :
  wf st → ws ∈ clients st → is_open ws st = true → leaves_open ws i →
  ws ∈ clients (rstep st i) ∧ is_open ws (rstep st i) = true ∧
  replayed (outbox_of ws (rstep st i)) = replayed (outbox_of ws st) ∧
  live (outbox_of ws (rstep st i)) =
    live (outbox_of ws st) ++ option_list (remitted_by (networks st) i).
Proof.
  intros Hwf Hin Hopen Hi.
  pose proof (is_open_lt ws st Hopen) as Hlt.
  pose proof (step_emitted st i) as He.
  destruct (remitted_by (networks st) i) as [e|] eqn:Hem.
  { rewrite He.
    destruct (broadcastEvent_fields e st) as (_ & -> & _).
    rewrite is_open_broadcastEvent, outbox_of_broadcastEvent by apply Hwf.
    rewrite decide_True, Hopen by done.
    by rewrite replayed_snoc_Live, live_snoc_Live. }
  clear He. simpl. rewrite app_nil_r.
  destruct i; simpl in *.
  - unfold outbox_of, is_open. rewrite sockets_connect_old by done.
    split_and!; [|done..]. rewrite connect_state; simpl. by apply elem_of_Set_add.
  - destruct (on_message_reply ws0 raw st) as (m & Hm & ->).
    rewrite is_open_ws_send, outbox_of_ws_send, Hopen.
    split_and!; [done|done|..]; case_decide;
      rewrite ?app_nil_r, ?replayed_snoc_reply, ?live_snoc_reply; done.
  - unfold outbox_of, is_open; simpl.
    rewrite list_lookup_alter_ne by done. done.
  - unfold outbox_of, is_open; simpl.
    rewrite list_lookup_alter_ne by done.
    split_and!; [|done..]. apply elem_of_Set_delete. by split.
  - case_decide; done.
  - case_decide; done.
Qed.

Lemma run_session ws inputs st :
  wf st → ws ∈ clients st → is_open ws st = true →
  Forall (leaves_open ws) inputs →
  replayed (outbox_of ws (rrun inputs st)) = replayed (outbox_of ws st) ∧
  live (outbox_of ws (rrun inputs st)) =
    live (outbox_of ws st) ++ remitted (networks st) inputs.
Proof.
  revert st. induction inputs as [|i inputs IH]; intros st Hwf Hin Hopen Hall.
  { simpl. by rewrite app_nil_r. }
  apply Forall_cons in Hall as [Hi Hall].
  destruct (step_session ws st i Hwf Hin Hopen Hi) as (Hin' & Hopen' & Hr & Hl).
  destruct (IH (rstep st i) (wf_step st i Hwf) Hin' Hopen' Hall) as [Hr' Hl'].
  destruct (step_fields st i) as [Hn _].
  rewrite run_cons, emitted_cons, Hr', Hl', Hr, Hl, Hn.
  split; [done|]. rewrite <- app_assoc. by destruct (remitted_by (networks st) i).
Qed.

(** Only the ['close'] handler of a session takes it out of the
    registry. *)
Lemma step_keeps_registered ws st i :
  ws ∈ clients st → i ≠ Close ws → ws ∈ clients (rstep st i).
Proof.
  intros Hin Hi.
  pose proof (step_emitted st i) as He.
  destruct (remitted_by (networks st) i) as [e|] eqn:Hem.
  { rewrite He. by destruct (broadcastEvent_fields e st) as (_ & -> & _). }
  clear He. destruct i; simpl in *.
  - rewrite connect_state; simpl. by apply elem_of_Set_add.
  - by destruct (on_message_fields ws0 raw st) as (_ & -> & _).
  - done.
  - apply elem_of_Set_delete. split; [done|]. congruence.
  - by case_decide.
  - by case_decide.
Qed.

Lemma run_keeps_registered ws inputs st :
  ws ∈ clients st → Forall (λ i, i ≠ Close ws) inputs →
  ws ∈ clients (rrun inputs st).
Proof.
  revert st. induction inputs as [|i inputs IH]; intros st Hin Hall; [done|].
  apply Forall_cons in Hall as [Hi Hall].
  rewrite run_cons. apply IH; [|done]. by apply step_keeps_registered.
Qed.

(** Nothing is ever taken back from an outbox. *)
Lemma step_outbox_grows ws st i :
  wf st → ws < length (sockets st) →
  outbox_of ws st `prefix_of` outbox_of ws (rstep st i) ∧
  ws < length (sockets (rstep st i)).
Proof.
  intros Hwf Hlt.
  pose proof (step_emitted st i) as He.
  destruct (remitted_by (networks st) i) as [e|] eqn:Hem.
  { rewrite He. destruct (broadcastEvent_fields e st) as (_ & _ & _ & ->).
    split; [|done]. rewrite outbox_of_broadcastEvent by apply Hwf. by eexists. }
  clear He. destruct i; simpl in *.
  - rewrite connect_state at 2; simpl. rewrite length_app; simpl. split; [|lia].
    unfold outbox_of. by rewrite sockets_connect_old.
  - destruct (on_message_reply ws0 raw st) as (m & _ & ->).
    destruct (ws_send_fields ws0 m st) as (_ & _ & _ & _ & ->). split; [|done].
    rewrite outbox_of_ws_send. by eexists.
  - rewrite length_alter. split; [|done]. unfold outbox_of; simpl.
    rewrite list_lookup_alter. case_decide; [subst ws0|done].
    by destruct (sockets st !! ws).
  - rewrite length_alter. split; [|done]. unfold outbox_of; simpl.
    rewrite list_lookup_alter. case_decide; [subst ws0|done].
    by destruct (sockets st !! ws).
  - by case_decide.
  - by case_decide.
Qed.

Lemma run_outbox_grows ws inputs st :
  wf st → ws < length (sockets st) →
  outbox_of ws st `prefix_of` outbox_of ws (rrun inputs st).
Proof.
  revert st. induction inputs as [|i inputs IH]; intros st Hwf Hlt; [done|].
  destruct (step_outbox_grows ws st i Hwf Hlt) as [Hp Hlt'].
  rewrite run_cons. etrans; [exact Hp|]. apply IH; [by apply wf_step | done].
Qed.

End RelayFacts.

(** ** More on sockets and on the points of a broadcast *)

Lemma socket_send_closed msg s : readyState s ≠ OPEN → socket_send msg s = s.
Proof. unfold socket_send. by destruct (readyState s). Qed.

Lemma sockets_ws_send_other ws msg st i :
  i ≠ ws → sockets (ws_send ws msg st) !! i = sockets st !! i.
Proof.
  intros Hne. rewrite sockets_ws_send_lookup. rewrite decide_False by done.
  by destruct (sockets st !! i).
Qed.

Lemma outbox_of_ws_send_open ws msg st :
  is_open ws st = true → outbox_of ws (ws_send ws msg st) = outbox_of ws st ++ [msg].
Proof. intros Ho. rewrite outbox_of_ws_send, decide_True, Ho; done. Qed.

Lemma sockets_broadcastEvent_closed e st i :
  NoDup (clients st) → is_open i st = false →
  sockets (broadcastEvent e st) !! i = sockets st !! i.
Proof.
  intros Hnd Hc. rewrite sockets_broadcastEvent_lookup by done.
  unfold is_open in Hc. destruct (sockets st !! i) as [s|]; [simpl|done].
  destruct (decide (i ∈ clients st)); [|reflexivity]. f_equal.
  apply socket_send_closed. by apply bool_decide_eq_false in Hc.
Qed.

Lemma sockets_broadcastEvent_unregistered e st i :
  NoDup (clients st) → i ∉ clients st →
  sockets (broadcastEvent e st) !! i = sockets st !! i.
Proof.
  intros Hnd Hc. rewrite sockets_broadcastEvent_lookup by done.
  rewrite decide_False by done. by destruct (sockets st !! i).
Qed.

Lemma last_messageHistory_broadcastEvent e st :
  0 < maxHistorySize st → last (messageHistory (broadcastEvent e st)) = Some e.
Proof.
  intros Hpos. rewrite messageHistory_broadcastEvent.
  case_match eqn:Hlt; [|apply last_snoc].
  apply Nat.ltb_lt in Hlt. rewrite length_app in Hlt; simpl in Hlt.
  destruct (messageHistory st) as [|x h]; simpl in *; [lia|].
  rewrite drop_0. apply last_snoc.
Qed.

Lemma deliveries_fields msg cs st s :
  s ∈ deliveries msg st cs →
  messageHistory s = messageHistory st ∧ clients s = clients st.
Proof.
  revert st. induction cs as [|c cs IH]; intros st; simpl.
  - intros H. by apply not_elem_of_nil in H.
  - rewrite elem_of_cons. intros [->|Hs].
    + pose proof (deliver_fields msg st c). tauto.
    + destruct (IH _ Hs) as [-> ->].
      pose proof (deliver_fields msg st c). tauto.
Qed.

Lemma last_deliveries msg cs st :
  last (st :: deliveries msg st cs) = Some (foldl (deliver msg) st cs).
Proof.
  revert st. induction cs as [|c cs IH]; intros st; [done|].
  cbn [deliveries foldl]. rewrite <- IH. done.
Qed.

Lemma per_network_split n h :
  Forall known_type h →
  sent_on n h + received_on n h = length (filter (λ e, network e = n) h).
Proof.
  unfold sent_on, received_on.
  induction h as [|e h IH]; intros Hk; [done|].
  apply Forall_cons in Hk as [He Hk]. specialize (IH Hk).
  rewrite !filter_cons.
  destruct (decide (network e = n)) as [Hn|Hn].
  - destruct He as [He|He]; rewrite He;
      repeat case_decide; simpl in *; try lia; intuition congruence.
  - repeat case_decide; simpl in *; try lia; tauto.
Qed.

Lemma relay_memory_ws_send ws msg st :
  relay_memory (ws_send ws msg st) = relay_memory st.
Proof.
  unfold relay_memory, ws_send; simpl. f_equal.
  apply list_eq; intros i. rewrite !list_lookup_fmap, list_lookup_alter.
  case_decide; [subst i|done].
  destruct (sockets st !! ws) as [s|]; [simpl|done].
  by rewrite socket_send_readyState.
Qed.

(** ** Events, their networks, and how often a list holds them *)

Lemma occurrences_app e l k :
  occurrences e (l ++ k) = occurrences e l + occurrences e k.
Proof. unfold occurrences. by rewrite filter_app, length_app. Qed.

Lemma occurrences_absent e l : e ∉ l → occurrences e l = 0.
Proof.
  unfold occurrences. induction l as [|x l IH]; intros Hn; [done|].
  rewrite not_elem_of_cons in Hn. destruct Hn as [Hne Hn].
  rewrite filter_cons_False by congruence. auto.
Qed.

Lemma occurrences_NoDup e l : NoDup l → e ∈ l → occurrences e l = 1.
Proof.
  induction 1 as [|x l Hx Hnd IH]; intros Hin.
  { by apply elem_of_nil in Hin. }
  unfold occurrences in *. apply elem_of_cons in Hin as [->|Hin].
  - rewrite filter_cons_True by done. simpl. f_equal.
    by apply occurrences_absent.
  - rewrite filter_cons_False; [auto|]. intros ->. done.
Qed.

Lemma emitted_by_network (toUtf8String : string → option string) nets i e :
  emitted_by toUtf8String nets i = Some e → network e ∈ nets.
Proof.
  destruct i; simpl; try done; case_decide; intros; by simplify_eq.
Qed.

Lemma emitted_networks (toUtf8String : string → option string) nets inputs :
  Forall (λ e, network e ∈ nets) (emitted toUtf8String nets inputs).
Proof.
  induction inputs as [|i inputs IH]; [constructor|].
  rewrite emitted_cons.
  destruct (emitted_by toUtf8String nets i) as [e|] eqn:He; [|done].
  constructor; [|done]. by eapply emitted_by_network.
Qed.

(** The events of the ring are of the networks of the configuration. *)
Lemma ring_networks
    (JSON_parse : string → Completion json) (toUtf8String : string → option string)
    nets inputs :
  Forall (λ e, network e ∈ nets)
         (messageHistory (run JSON_parse toUtf8String inputs (constructor nets))).
Proof.
  rewrite messageHistory_run_constructor. apply Forall_drop, emitted_networks.
Qed.

(** When no network of the configuration has a name that
    [stats.networks] inherits, no event of the ring has. *)
Lemma ring_ordinary_names
    (JSON_parse : string → Completion json) (toUtf8String : string → option string)
    nets inputs :
  Forall (λ n, inherited n = false) nets →
  Forall (λ e, inherited (network e) = false)
         (messageHistory (run JSON_parse toUtf8String inputs (constructor nets))).
Proof.
  intros Hnets. rewrite Forall_forall in Hnets.
  eapply Forall_impl; [apply ring_networks|]. simpl. auto.
Qed.

(** A registered, open session that no input closes is open at the end. *)
Lemma run_session_open
    (JSON_parse : string → Completion json) (toUtf8String : string → option string)
    ws inputs st :
  wf st → ws ∈ clients st → is_open ws st = true →
  Forall (leaves_open ws) inputs →
  is_open ws (run JSON_parse toUtf8String inputs st) = true.
Proof.
  revert st. induction inputs as [|i inputs IH]; intros st Hwf Hin Hopen Hall; [done|].
  apply Forall_cons in Hall as [Hi Hall].
  destruct (step_session JSON_parse toUtf8String ws st i Hwf Hin Hopen Hi)
    as (Hin' & Hopen' & _).
  rewrite run_cons. apply IH; [|done..].
  by apply wf_step.
Qed.

(** The reply to [get_stats], for any request of that type. *)
Lemma handleClientMessage_get_stats ws request st :
  as_string (property "type" request) = Some "get_stats"%string →
  handleClientMessage ws request st = Normal (ws_send ws (stats_message st) st).
Proof.
  intros Htype. unfold handleClientMessage.
  destruct request; try done; rewrite Htype;
    rewrite decide_False by done; by rewrite decide_True.
Qed.

(** * The claims *)

(** C1. Starting from an empty ring of capacity [maxHistorySize] (the
    constructor builds an empty ring of capacity 100), after the events
    [es] have been appended the ring has length
    [min (length es) maxHistorySize] and is exactly the last that many
    events of [es], in the order they were appended; when one event more
    than the capacity was appended the ring is [es] without its first
    event, which is therefore absent from it whenever the events are
    pairwise distinct. *)
Theorem C1_history_ring_bounded_fifo (st : State) (es : list Event) :
  messageHistory st = [] →
  let h := messageHistory (broadcastEvents es st) in
  let H := maxHistorySize st in
  (∀ nets, messageHistory (constructor nets) = [] ∧
           maxHistorySize (constructor nets) = 100) ∧
  length h = length es `min` H ∧
  h = drop (length es - H) es ∧
  (length es = S H →
     h = drop 1 es ∧ (NoDup es → ∀ e, head es = Some e → e ∉ h)).
Proof.
  intros Hempty h H.
  assert (h = drop (length es - H) es) as Hh.
  { subst h H. rewrite messageHistory_broadcastEvents; rewrite Hempty; simpl; [done | lia]. }
  split; [done|]. split; [rewrite Hh, length_drop; lia|]. split; [done|].
  intros Hlen. rewrite Hh.
  replace (length es - H) with 1 by lia. split; [done|].
  intros Hnd e Hhd. destruct es as [|x es']; simplify_eq/=.
  rewrite drop_0. by apply NoDup_cons_1_1 in Hnd.
Qed.

(** One event more than the capacity: the first is gone, the rest stay. *)
Lemma C1_witness_hundred_and_one :
  let es := example_event "subnet1" <$> seq 0 101 in
  messageHistory (broadcastEvents es (constructor example_networks)) = drop 1 es.
Proof.
  intros es.
  destruct (C1_history_ring_bounded_fifo (constructor example_networks) es eq_refl)
    as (_ & _ & _ & Hfull).
  apply Hfull. reflexivity.
Defined.

(** C2. A session connects after the inputs [before] and stays open
    during the inputs [after]; the emitted events are pairwise distinct.
    Its replay is then the ring as it is when the session connects, and
    its live events are those emitted after, in order. Every event of
    that ring or emitted after reaches the session exactly once, and no
    event is both in the replay and live. When at most a hundred events
    were emitted before, so that the ring still holds them all, replay
    and live events together are all the events emitted, before and
    after: each of them reaches the session exactly once. *)
Theorem C2_each_event_reaches_once
    (JSON_parse : string → Completion json) (toUtf8String : string → option string)
    (nets : list string) (before : list Input) (now : string) (after : list Input) :
  let st1 := run JSON_parse toUtf8String before (constructor nets) in
  let ws := length (sockets st1) in
  let o := outbox_of ws (run JSON_parse toUtf8String (Connection now :: after) st1) in
  Forall (leaves_open ws) after →
  NoDup (emitted toUtf8String nets (before ++ after)) →
  replayed o = messageHistory st1 ∧
  live o = emitted toUtf8String nets after ∧
  (∀ e, e ∈ messageHistory st1 ++ emitted toUtf8String nets after →
        occurrences e (replayed o) + occurrences e (live o) = 1) ∧
  (∀ e, e ∈ replayed o → e ∉ live o) ∧
  (length (emitted toUtf8String nets before) ≤ 100 →
     replayed o ++ live o = emitted toUtf8String nets (before ++ after) ∧
     reaches_exactly_once JSON_parse toUtf8String nets before now after).
Proof.
  intros st1 ws o Hafter Hnd.
  assert (wf st1) as Hwf1 by apply wf_run, wf_constructor.
  assert (wf (connect now st1)) as Hwf2
    by apply (wf_step JSON_parse toUtf8String st1 (Connection now) Hwf1).
  destruct (run_session JSON_parse toUtf8String ws after (connect now st1) Hwf2
              (new_in_clients_connect now st1) (is_open_connect_new now st1) Hafter)
    as [Hr Hl].
  assert (replayed o = messageHistory st1) as Hreplay.
  { subst o. rewrite run_cons.
    change (step JSON_parse toUtf8String st1 (Connection now)) with (connect now st1).
    subst ws. rewrite Hr, outbox_of_connect_new.
    case_decide as Hh; [by rewrite Hh|]. unfold replayed; simpl. by rewrite app_nil_r. }
  assert (live o = emitted toUtf8String nets after) as Hlive.
  { subst o. rewrite run_cons.
    change (step JSON_parse toUtf8String st1 (Connection now)) with (connect now st1).
    subst ws. rewrite Hl, outbox_of_connect_new.
    assert (networks (connect now st1) = nets) as ->.
    { rewrite connect_state; simpl. apply networks_run. }
    by case_decide. }
  assert (messageHistory st1 =
            drop (length (emitted toUtf8String nets before) - 100)
                 (emitted toUtf8String nets before)) as Hring
    by apply messageHistory_run_constructor.
  unfold emitted in Hnd. rewrite omap_app in Hnd.
  fold (emitted toUtf8String nets before) in Hnd.
  fold (emitted toUtf8String nets after) in Hnd.
  assert (NoDup (messageHistory st1 ++ emitted toUtf8String nets after)) as Hnd'.
  { eapply sublist_NoDup; [exact Hnd|].
    rewrite Hring. apply sublist_app; [apply sublist_drop | done]. }
  assert (∀ e, e ∈ messageHistory st1 ++ emitted toUtf8String nets after →
               occurrences e (replayed o) + occurrences e (live o) = 1) as Honce.
  { intros e He. rewrite Hreplay, Hlive, <- occurrences_app.
    by apply occurrences_NoDup. }
  split_and!; [done | done | done | |].
  - rewrite Hreplay, Hlive. apply NoDup_app in Hnd' as (_ & Hdisj & _). exact Hdisj.
  - intros Hcap.
    assert (messageHistory st1 = emitted toUtf8String nets before) as Hall.
    { rewrite Hring. replace (_ - 100) with 0 by lia. apply drop_0. }
    split.
    + rewrite Hreplay, Hlive, Hall. unfold emitted. by rewrite omap_app.
    + unfold reaches_exactly_once. intros e He. apply Honce.
      rewrite Hall. unfold emitted in *. by rewrite omap_app in He.
Qed.

(** Two events before the session connects, one after. *)
Lemma C2_witness_two_before_one_after :
  let before := [example_sent "subnet1" 0; example_received "subnet2" 1] in
  let after := [example_sent "cchain" 2] in
  let o := outbox_of 0 (example_run (before ++ Connection example_now :: after)) in
  length (replayed o) = 2 ∧ live o = [example_event "cchain" 2] ∧
  reaches_exactly_once example_JSON_parse example_toUtf8String example_networks
    before example_now after.
Proof.
  intros before after o.
  destruct (C2_each_event_reaches_once example_JSON_parse example_toUtf8String
              example_networks before example_now after)
    as (Hr & Hl & _ & _ & Hcap).
  { repeat constructor. }
  { apply (bool_decide_unpack _). vm_compute. reflexivity. }
  split_and!.
  - exact (f_equal length Hr).
  - exact Hl.
  - apply Hcap. vm_compute. lia.
Defined.

(** C3. A configuration with the networks [subnet1] and [constructor].
    One message is sent on each, then a session connects and asks for
    the statistics. The claim asks for a reply that counts, for each
    network, the events of the ring: one sent on [subnet1] and one sent on
    [constructor]. The reply of the code has [totalMessages] 2, one
    session, and one sent on [subnet1], and no entry at all for
    [constructor]: [subnet1] is the only network it names. *)
Theorem C3_network_named_constructor_gets_no_entry :
  let nets := ["subnet1"; "constructor"]%string in
  let inputs := [example_sent "subnet1" 0; example_sent "constructor" 1;
                 Connection example_now] in
  let st := run example_JSON_parse example_toUtf8String inputs (constructor nets) in
  let request := JObj [("type", JStr "get_stats")]%string in
  ∃ perNetwork,
    handleClientMessage 0 request st = Normal (ws_send 0 (Stats 2 1 perNetwork) st) ∧
    outbox_of 0 (ws_send 0 (Stats 2 1 perNetwork) st) =
      outbox_of 0 st ++ [Stats 2 1 perNetwork] ∧
    sent_on "subnet1" (messageHistory st) = 1 ∧
    sent_on "constructor" (messageHistory st) = 1 ∧
    perNetwork !! "subnet1"%string = Some {| sent := 1; received := 0 |} ∧
    perNetwork !! "constructor"%string = None ∧
    dom perNetwork = ({[ "subnet1"%string ]} : gset string).
Proof.
  intros nets inputs st request.
  exists (stats_networks (messageHistory st)).
  split_and!.
  - reflexivity.
  - apply outbox_of_ws_send_open. reflexivity.
  - vm_compute. reflexivity.
  - vm_compute. reflexivity.
  - rewrite stats_networks_lookup
      by apply (wf_run example_JSON_parse example_toUtf8String), wf_constructor.
    vm_compute. reflexivity.
  - apply stats_networks_inherited. reflexivity.
  - rewrite dom_stats_networks. vm_compute. reflexivity.
Qed.

(** C10. The same configuration, with one message sent on [subnet1] and
    one on [constructor]. Both events of the ring are of type
    [message_sent]; the claim has the counters of a stats reply add up
    to [totalMessages]. In the reply of the code [totalMessages] is 2
    and the counters, over all the networks it names, add up to 1. *)
Theorem C10_counters_add_up_to_less_than_total :
  let nets := ["subnet1"; "constructor"]%string in
  let inputs := [example_sent "subnet1" 0; example_sent "constructor" 1] in
  let st := run example_JSON_parse example_toUtf8String inputs (constructor nets) in
  Forall (λ e, type e = "message_sent"%string ∨ type e = "message_received"%string)
         (messageHistory st) ∧
  ∃ perNetwork,
    stats_message st = Stats 2 0 perNetwork ∧
    map_fold (λ _ c acc, sent c + received c + acc) 0 perNetwork = 1.
Proof.
  intros nets inputs st. split.
  - apply (wf_run example_JSON_parse example_toUtf8String), wf_constructor.
  - exists (stats_networks (messageHistory st)). split; [reflexivity|].
    change (stats_total (stats_networks (messageHistory st)) = 1).
    rewrite stats_total_networks. vm_compute. reflexivity.
Qed.

(** C4, as stated, fails: a session whose socket is closing is passed
    over by a broadcast and stays in the registry, whatever happens next,
    until its own ['close'] event. *)
Lemma C4_counterexample_closing_session_stays :
  ¬ failure_triggers_removal example_JSON_parse example_toUtf8String
      (example_event "subnet1" 0)
      (example_run [Connection example_now; Connection example_now; Closing 0]).
Proof.
  intros H. destruct (H 0) as (later & Hlater & Hgone).
  - apply list_elem_of_In. vm_compute. by left.
  - reflexivity.
  - apply Hgone. apply run_keeps_registered; [|done].
    apply list_elem_of_In. vm_compute. by left.
Qed.

(** C4, amended. [broadcastEvent] is total; it sends the event, once, to
    every registered session whose socket is open, whatever the state of
    the others; it leaves alone the sockets that are not open and those
    that are not registered, and it leaves the registry as it was. A
    session leaves the registry when its ['close'] handler runs, not
    before, and that removes this session alone. *)
Theorem C4_broadcast_isolation (e : Event) (st : State) :
  NoDup (clients st) →
  clients (broadcastEvent e st) = clients st ∧
  (∀ ws, ws ∈ clients st → is_open ws st = true →
         outbox_of ws (broadcastEvent e st) = outbox_of ws st ++ [Live e]) ∧
  (∀ ws, is_open ws st = false →
         sockets (broadcastEvent e st) !! ws = sockets st !! ws) ∧
  (∀ ws, ws ∉ clients st →
         sockets (broadcastEvent e st) !! ws = sockets st !! ws) ∧
  (∀ JSON_parse toUtf8String later ws,
     ws ∈ clients st → Forall (λ i, i ≠ Close ws) later →
     ws ∈ clients (run JSON_parse toUtf8String later (broadcastEvent e st))) ∧
  (∀ ws c, c ∈ clients (on_close ws st) ↔ c ∈ clients st ∧ c ≠ ws).
Proof.
  intros Hnd. split_and!.
  - apply broadcastEvent_fields.
  - intros ws Hin Hopen.
    rewrite outbox_of_broadcastEvent, decide_True, Hopen; done.
  - intros ws. by apply sockets_broadcastEvent_closed.
  - intros ws. by apply sockets_broadcastEvent_unregistered.
  - intros JSON_parse toUtf8String later ws Hin Hlater.
    apply run_keeps_registered; [|done].
    by destruct (broadcastEvent_fields e st) as (_ & -> & _).
  - intros ws c. apply elem_of_Set_delete.
Qed.

(** Session 0 is closing, session 1 is open: session 1 gets the event and
    session 0 is still registered. *)
Lemma C4_witness_one_closing_one_open :
  let st := example_run [Connection example_now; Connection example_now; Closing 0] in
  let e := example_event "subnet1" 0 in
  outbox_of 1 (broadcastEvent e st) = outbox_of 1 st ++ [Live e] ∧
  clients (broadcastEvent e st) = [0; 1].
Proof.
  intros st e.
  assert (NoDup (clients st)) as Hnd.
  { apply (bool_decide_unpack _). vm_compute. exact I. }
  destruct (C4_broadcast_isolation e st Hnd) as (Hc & Ho & _).
  split.
  - apply Ho; [|reflexivity]. apply list_elem_of_In. vm_compute. right. by left.
  - rewrite Hc. reflexivity.
Defined.

(** C5, as stated, fails: with an empty ring the new session is sent the
    acknowledgement and no history message. *)
Lemma C5_counterexample_empty_ring_no_history :
  ¬ connect_sends_ack_then_history example_now (constructor example_networks).
Proof. unfold connect_sends_ack_then_history. vm_compute. discriminate. Qed.

(** C5, amended. In any state the relay reaches, a session that connects
    is sent, by the end of the ['connection'] handler, the [connected]
    message with the networks of the configuration and then, when the ring
    is not empty, one [history] message with the whole ring, and when the
    ring is empty nothing more; nothing was sent to it live by then, and
    whatever is sent to it later comes after these. *)
Theorem C5_connect_ack_then_history
    (JSON_parse : string → Completion json) (toUtf8String : string → option string)
    (nets : list string) (before : list Input) (now : string) (after : list Input) :
  let st := run JSON_parse toUtf8String before (constructor nets) in
  let ws := length (sockets st) in
  let greeting :=
    Connected now nets ::
    (if decide (messageHistory st = []) then [] else [History (messageHistory st)]) in
  step JSON_parse toUtf8String st (Connection now) = connect now st ∧
  outbox_of ws (connect now st) = greeting ∧
  live greeting = [] ∧
  greeting `prefix_of`
    outbox_of ws (run JSON_parse toUtf8String (Connection now :: after) st).
Proof.
  intros st ws greeting.
  assert (wf st) as Hwf by apply wf_run, wf_constructor.
  assert (outbox_of ws (connect now st) = greeting) as Hg.
  { assert (networks st = nets) as Hn by apply networks_run.
    subst ws greeting. by rewrite outbox_of_connect_new, Hn. }
  split_and!; [done | done | |].
  - subst greeting. by case_decide.
  - rewrite <- Hg, run_cons.
    apply run_outbox_grows.
    + apply (wf_step JSON_parse toUtf8String st (Connection now) Hwf).
    + simpl. apply is_open_lt, is_open_connect_new.
Qed.

(** C6. Both listeners are total: whatever the occurrence, the handler
    builds one event, calling the decoder exactly once, on the payload;
    the event carries the decoded text when there is one and otherwise
    the payload as it came, flagged ['hex']; and in both cases the handler
    is [broadcastEvent] on that event, which becomes the newest of the
    ring and is sent to every registered open session. *)
Theorem C6_normalization_never_drops
    (toUtf8String : string → option string) (st : State)
    (networkName messageID counterparty deliverer_ relayerRewardAddress now : string)
    (teleporterMessage : TeleporterMessage)
    (message_ : TeleporterMessageInput) (feeInfo : FeeInfo) :
  0 < maxHistorySize st → NoDup (clients st) →
  (let p := normalizeReceived networkName messageID counterparty deliverer_
              relayerRewardAddress teleporterMessage now in
   let ev := runAdapter toUtf8String p in
   decodeCalls toUtf8String p = [tm_message teleporterMessage] ∧
   carries_payload toUtf8String (tm_message teleporterMessage) ev ∧
   on_ReceiveCrossChainMessage toUtf8String networkName messageID counterparty
     deliverer_ relayerRewardAddress teleporterMessage now st = broadcastEvent ev st ∧
   appended_and_broadcast ev st (broadcastEvent ev st)) ∧
  (let p := normalizeSent networkName messageID counterparty message_ feeInfo now in
   let ev := runAdapter toUtf8String p in
   decodeCalls toUtf8String p = [ti_message message_] ∧
   carries_payload toUtf8String (ti_message message_) ev ∧
   on_SendCrossChainMessage toUtf8String networkName messageID counterparty
     message_ feeInfo now st = broadcastEvent ev st ∧
   appended_and_broadcast ev st (broadcastEvent ev st)).
Proof.
  intros Hpos Hnd.
  assert (∀ ev, appended_and_broadcast ev st (broadcastEvent ev st)) as Hab.
  { intros ev. split; [by apply last_messageHistory_broadcastEvent|].
    intros ws Hin Hopen.
    rewrite outbox_of_broadcastEvent, decide_True, Hopen; done. }
  split; (split_and!; [done | | done | apply Hab]);
    unfold carries_payload; simpl; by case_match.
Qed.

(** A payload that is not UTF-8 and one that is, with one open session. *)
Lemma C6_witness_binary_and_text :
  let st := example_run [Connection example_now] in
  let tm := {| tm_sourceBlockchainID := "0x50c3"; originSenderAddress := "0xb0b";
               tm_message := "0xff" |} in
  let m := {| ti_destinationBlockchainID := "0xd357"; ti_destinationAddress := "0xa11ce";
              ti_feeInfo := example_fee; ti_requiredGasLimit := 21000;
              allowedRelayerAddresses := []; ti_message := "0x68656c6c6f" |} in
  let received := runAdapter example_toUtf8String
                    (normalizeReceived "subnet1" "0x01" "0x50c3" "0xde1" "0x0" tm example_now) in
  let sent_ := runAdapter example_toUtf8String
                 (normalizeSent "subnet2" "0x02" "0xd357" m example_fee example_now) in
  (message (data received) = "0xff"%string ∧
   messageType (data received) = Some "hex"%string) ∧
  (message (data sent_) = "hello"%string ∧ messageType (data sent_) = None).
Proof.
  intros st tm m received sent_.
  assert (NoDup (clients st)) as Hnd.
  { apply (bool_decide_unpack _). vm_compute. exact I. }
  assert (0 < maxHistorySize st) as Hpos by (vm_compute; lia).
  destruct (C6_normalization_never_drops example_toUtf8String st
              "subnet1" "0x01" "0x50c3" "0xde1" "0x0" example_now tm m example_fee
              Hpos Hnd) as ((_ & Hr & _) & _).
  destruct (C6_normalization_never_drops example_toUtf8String st
              "subnet2" "0x02" "0xd357" "0xde1" "0x0" example_now tm m example_fee
              Hpos Hnd) as (_ & (_ & Hs & _)).
  split; [exact Hr | exact Hs].
Defined.

(** C7. Inside one [broadcastEvent], on a ring of capacity at least one,
    the event is in the ring before anything is sent: at every point of
    the call at which some session's outbox is no longer what it was when
    the call began, the event is the newest of the ring, and a stats reply
    computed there is the one computed after the call. *)
Theorem C7_append_before_broadcast (e : Event) (st : State) :
  0 < maxHistorySize st →
  last (broadcastEvent_points e st) = Some (broadcastEvent e st) ∧
  ∀ s ws, s ∈ st :: broadcastEvent_points e st →
          outbox_of ws s ≠ outbox_of ws st →
          last (messageHistory s) = Some e ∧
          stats_message s = stats_message (broadcastEvent e st).
Proof.
  intros Hpos. unfold broadcastEvent_points, broadcastEvent.
  set (st1 := history_push e st). set (st2 := history_shift st1).
  assert (sockets st2 = sockets st) as Hs2.
  { subst st2. by destruct (history_shift_fields st1) as (_ & _ & _ & ->). }
  split.
  { change (st1 :: st2 :: deliveries (Live e) st2 (clients st2))
      with ([st1] ++ st2 :: deliveries (Live e) st2 (clients st2)).
    rewrite last_app, last_deliveries. done. }
  intros s ws Hs Hout.
  rewrite !elem_of_cons in Hs. destruct Hs as [->|[->|[->|Hs]]].
  - done.
  - by destruct Hout.
  - destruct Hout. unfold outbox_of. by rewrite Hs2.
  - destruct (deliveries_fields _ _ _ _ Hs) as [Hh Hc].
    destruct (foldl_deliver_fields (Live e) (clients st2) st2) as (_ & Hc' & Hh' & _).
    split.
    + rewrite Hh. pose proof (last_messageHistory_broadcastEvent e st Hpos) as Hl.
      unfold broadcastEvent in Hl. fold st1 st2 in Hl. by rewrite Hh' in Hl.
    + unfold stats_message. by rewrite Hh, Hc, Hh', Hc'.
Qed.

(** Two open sessions: after the first delivery the ring already ends
    with the event. *)
Lemma C7_witness_two_sessions :
  let st := example_run [Connection example_now; Connection example_now] in
  let e := example_event "subnet1" 7 in
  last (broadcastEvent_points e st) = Some (broadcastEvent e st).
Proof.
  intros st e.
  assert (0 < maxHistorySize st) as Hpos by (vm_compute; lia).
  exact (proj1 (C7_append_before_broadcast e st Hpos)).
Defined.

(** C8, as stated, fails: the relay records no filter. After a request
    for subnet1 and after a request for subnet2 it holds the same things;
    the two differ only in the reply that was sent. *)
Lemma C8_counterexample_no_filter_recorded :
  ¬ subscription_recorded 0 (example_run [Connection example_now]).
Proof.
  intros H.
  apply (H ["subnet1"]%string ["subnet2"]%string _ _ eq_refl eq_refl).
  - discriminate.
  - reflexivity.
Qed.

(** Nor is one applied: a session that has subscribed to subnet1 alone
    is still sent an event of subnet2. *)
Lemma subscribed_session_gets_other_networks :
  ¬ subscription_filters_broadcast 0 ["subnet1"]%string (example_event "subnet2" 0)
      (example_run [Connection example_now]).
Proof.
  intros H. specialize (H _ eq_refl).
  assert (network (example_event "subnet2" 0) ∉ ["subnet1"]%string) as Hout.
  { rewrite list_elem_of_In. vm_compute. intros [Heq|[]]. discriminate Heq. }
  specialize (H Hout). vm_compute in H. discriminate H.
Qed.

(** A request for an empty list of networks is answered with the empty
    list, not with the networks of the configuration. *)
Lemma subscribe_empty_list_sent_back :
  let st := example_run [Connection example_now] in
  handleClientMessage 0 (subscribe_request []) st =
    Normal (ws_send 0 (Subscribed (JArr [])) st).
Proof. reflexivity. Qed.

(** C8, amended. A [subscribe] request is answered on the requesting
    session with one [subscribed] message that carries the [networks] of
    the request as they are, an empty list too, or all the networks of
    the configuration when the request has no [networks] (or has there
    one of [null], [false], [0] and the empty string), and that is all
    it does: what the relay holds (the ring,
    the registry, the state of every socket) is as before, nothing is
    sent on any other socket, no history is replayed, and no filter is
    kept, so that a later broadcast reaches the session as it did
    before. *)
Theorem C8_subscribe_replies_only (ws : WsId) (request : json) (st : State) :
  as_string (property "type" request) = Some "subscribe"%string →
  let reply := Subscribed (subscribed_networks request st) in
  let st' := ws_send ws reply st in
  handleClientMessage ws request st = Normal st' ∧
  (property "networks" request = None →
     subscribed_networks request st = JArr (JStr <$> networks st)) ∧
  (∀ v, property "networks" request = Some v →
        subscribed_networks request st =
          if truthy v then v else JArr (JStr <$> networks st)) ∧
  relay_memory st' = relay_memory st ∧
  (∀ i, i ≠ ws → sockets st' !! i = sockets st !! i) ∧
  is_open ws st' = is_open ws st ∧
  outbox_of ws st' = outbox_of ws st ++ (if is_open ws st then [reply] else []) ∧
  replayed (outbox_of ws st') = replayed (outbox_of ws st) ∧
  (∀ e, NoDup (clients st) → ws ∈ clients st → is_open ws st = true →
        outbox_of ws (broadcastEvent e st') = outbox_of ws st' ++ [Live e]).
Proof.
  intros Htype reply st'.
  assert (outbox_of ws st' = outbox_of ws st ++ (if is_open ws st then [reply] else []))
    as Ho by (subst st'; by rewrite outbox_of_ws_send, decide_True).
  split_and!.
  - unfold handleClientMessage. destruct request; try done.
    by rewrite Htype, decide_True.
  - unfold subscribed_networks. by intros ->.
  - unfold subscribed_networks. by intros v ->.
  - apply relay_memory_ws_send.
  - intros i Hi. by apply sockets_ws_send_other.
  - apply is_open_ws_send.
  - exact Ho.
  - rewrite Ho. destruct (is_open ws st); [|by rewrite app_nil_r].
    by apply replayed_snoc_reply.
  - intros e Hnd Hin Hopen.
    destruct (ws_send_fields ws reply st) as (_ & Hc & _). fold st' in Hc.
    rewrite outbox_of_broadcastEvent by (by rewrite Hc).
    rewrite Hc, decide_True by done.
    replace (is_open ws st') with true; [done|].
    subst st'. by rewrite is_open_ws_send.
Qed.

(** Session 0 subscribes to subnet1 and is answered with that list. *)
Lemma C8_witness_subscribe_subnet1 :
  let st := example_run [Connection example_now] in
  handleClientMessage 0 (subscribe_request ["subnet1"]%string) st =
    Normal (ws_send 0 (Subscribed (JArr [JStr "subnet1"])) st).
Proof.
  intros st.
  exact (proj1 (C8_subscribe_replies_only 0 (subscribe_request ["subnet1"]%string) st eq_refl)).
Defined.

(** C9. A message from an open session that does not parse, or whose
    [type] is neither [subscribe] nor [get_stats], is answered with one
    [error] message on that session; the session stays registered and
    open, no other socket is touched, and the ring and the registry are as
    before. *)
Theorem C9_malformed_gets_error
    (JSON_parse : string → Completion json) (ws : WsId) (raw : string) (st : State) :
  is_open ws st = true →
  malformed_or_unknown JSON_parse raw →
  ∃ description,
    let st' := on_message JSON_parse ws raw st in
    st' = ws_send ws (Error description) st ∧
    outbox_of ws st' = outbox_of ws st ++ [Error description] ∧
    (∀ i, i ≠ ws → sockets st' !! i = sockets st !! i) ∧
    clients st' = clients st ∧
    messageHistory st' = messageHistory st ∧
    is_open ws st' = true.
Proof.
  intros Hopen Hbad. unfold malformed_or_unknown in Hbad.
  assert (∃ description,
            on_message JSON_parse ws raw st = ws_send ws (Error description) st)
    as [description Hd].
  { unfold on_message. destruct (JSON_parse raw) as [d|m]; [|by exists m].
    destruct Hbad as [Hs Hg]. unfold handleClientMessage.
    destruct d; try (by eexists); rewrite !decide_False by done; by eexists. }
  exists description. simpl. rewrite Hd. split_and!.
  - done.
  - by apply outbox_of_ws_send_open.
  - intros i Hi. by apply sockets_ws_send_other.
  - apply ws_send_fields.
  - apply ws_send_fields.
  - by rewrite is_open_ws_send.
Qed.

(** The empty string does not parse: session 0 gets the parser's
    message, session 1 gets nothing. *)
Lemma C9_witness_empty_message :
  let st := example_run [Connection example_now; Connection example_now] in
  let st' := on_message example_JSON_parse 0 "" st in
  outbox_of 0 st' = outbox_of 0 st ++ [Error "Unexpected end of JSON input"] ∧
  outbox_of 1 st' = outbox_of 1 st.
Proof.
  intros st st'.
  destruct (C9_malformed_gets_error example_JSON_parse 0 "" st eq_refl I)
    as (description & Hst & Ho & Hother & _).
  split.
  - reflexivity.
  - assert (1 ≠ 0) as Hne by lia.
    exact (f_equal (λ o, match o with Some s => outbox s | None => [] end)
                   (Hother 1 Hne)).
Defined.

(** * Further properties *)

(** ** The registry and the sockets *)

Lemma is_open_ready_of ws st : is_open ws st = true ↔ ready_of ws st = Some OPEN.
Proof.
  unfold is_open, ready_of. destruct (sockets st !! ws) as [s|]; simpl; [|done].
  rewrite bool_decide_eq_true. split; [by intros -> | by intros [= ->]].
Qed.

Lemma ready_of_ws_send ws msg st i : ready_of i (ws_send ws msg st) = ready_of i st.
Proof.
  unfold ready_of. rewrite sockets_ws_send_lookup.
  destruct (sockets st !! i) as [s|]; [simpl|done].
  case_decide; [|done]. by rewrite socket_send_readyState.
Qed.

Lemma ready_of_broadcastEvent e st i :
  NoDup (clients st) → ready_of i (broadcastEvent e st) = ready_of i st.
Proof.
  intros Hnd. unfold ready_of. rewrite sockets_broadcastEvent_lookup by done.
  destruct (sockets st !! i) as [s|]; [simpl|done].
  case_decide; [|done]. by rewrite socket_send_readyState.
Qed.

Lemma ready_of_connect now st i :
  ready_of i (connect now st) =
    if decide (i = length (sockets st)) then Some OPEN else ready_of i st.
Proof.
  unfold ready_of. rewrite connect_state; simpl.
  destruct (decide (i = length (sockets st))) as [Hi|Hi].
  - subst i. by rewrite lookup_app_r, Nat.sub_diag by lia.
  - destruct (decide (i < length (sockets st))) as [Hlt|Hge].
    + by rewrite lookup_app_l.
    + rewrite !lookup_ge_None_2; [done|lia|].
      rewrite length_app; simpl; lia.
Qed.

Lemma ready_of_set_readyState rs w st i :
  ready_of i (set_sockets (alter (set_readyState rs) w) st) =
    if decide (w = i) then (λ _, rs) <$> ready_of i st else ready_of i st.
Proof.
  unfold ready_of; simpl. rewrite list_lookup_alter.
  case_decide; [subst w|done]. by destruct (sockets st !! i).
Qed.

Lemma ready_of_lt ws st r : ready_of ws st = Some r → ws < length (sockets st).
Proof.
  unfold ready_of. destruct (sockets st !! ws) as [s|] eqn:Hs; [|done].
  intros _. by eapply lookup_lt_Some.
Qed.

Lemma registry_ok_constructor nets : registry_ok (constructor nets).
Proof.
  split; intros ws; simpl.
  - intros H. by apply not_elem_of_nil in H.
  - unfold ready_of; simpl. by destruct ws.
Qed.

Lemma elem_of_Set_add_iff ws c s : c ∈ Set_add ws s ↔ c ∈ s ∨ c = ws.
Proof.
  unfold Set_add. case_decide as Hin.
  - split; [by left|]. intros [?|Heq]; [done|by subst].
  - rewrite elem_of_app, list_elem_of_singleton. done.
Qed.

Section RegistryFacts.

Variable JSON_parse : string → Completion json.
Variable toUtf8String : string → option string.

Local Abbreviation rstep := (step JSON_parse toUtf8String).
Local Abbreviation rrun := (run JSON_parse toUtf8String).
Local Abbreviation remitted_by := (emitted_by toUtf8String).

(** How a step moves the state of a socket. *)
Lemma ready_of_step st i ws :
  wf st →
  ready_of ws (rstep st i) =
    match i with
    | Connection _ =>
        if decide (ws = length (sockets st)) then Some OPEN else ready_of ws st
    | Closing w => if decide (w = ws) then (λ _, CLOSING) <$> ready_of ws st else ready_of ws st
    | Close w => if decide (w = ws) then (λ _, CLOSED) <$> ready_of ws st else ready_of ws st
    | _ => ready_of ws st
    end.
Proof.
  intros Hwf. destruct i; simpl.
  - apply ready_of_connect.
  - destruct (on_message_reply JSON_parse ws0 raw st) as (m & _ & ->).
    apply ready_of_ws_send.
  - apply ready_of_set_readyState.
  - unfold on_close. apply (ready_of_set_readyState CLOSED).
  - case_decide; [|done]. apply ready_of_broadcastEvent, Hwf.
  - case_decide; [|done]. apply ready_of_broadcastEvent, Hwf.
Qed.

(** How a step moves the registry. *)
Lemma clients_step st i :
  clients (rstep st i) =
    match i with
    | Connection _ => Set_add (length (sockets st)) (clients st)
    | Close w => Set_delete w (clients st)
    | _ => clients st
    end.
Proof.
  destruct i; simpl; try done.
  - by rewrite connect_state.
  - by destruct (on_message_fields JSON_parse ws raw st) as (_ & -> & _).
  - case_decide; [|done]. apply broadcastEvent_fields.
  - case_decide; [|done]. apply broadcastEvent_fields.
Qed.

Lemma registry_ok_step st i : wf st → registry_ok st → registry_ok (rstep st i).
Proof.
  intros Hwf [Hreg Hopen]. split; intros ws.
  - rewrite clients_step, ready_of_step by done. destruct i.
    + rewrite elem_of_Set_add_iff. intros [Hin|Heq].
      * case_decide; [by exists OPEN | by apply Hreg].
      * rewrite decide_True by done. by exists OPEN.
    + apply Hreg.
    + intros Hin. destruct (Hreg ws Hin) as (r & Hr & Hne).
      case_decide; [|by exists r]. exists CLOSING. by rewrite Hr.
    + rewrite elem_of_Set_delete. intros [Hin Hne].
      rewrite decide_False by done. by apply Hreg.
    + apply Hreg.
    + apply Hreg.
  - rewrite clients_step, ready_of_step by done. destruct i.
    + rewrite elem_of_Set_add_iff. case_decide; [by right|].
      intros Hr. left. by apply Hopen.
    + apply Hopen.
    + case_decide; [|apply Hopen]. by destruct (ready_of ws st).
    + case_decide as Hw; [by destruct (ready_of ws st)|].
      intros Hr. apply elem_of_Set_delete. split; [by apply Hopen | congruence].
    + apply Hopen.
    + apply Hopen.
Qed.

Lemma registry_ok_run inputs st :
  wf st → registry_ok st → registry_ok (rrun inputs st).
Proof.
  revert st. induction inputs as [|i inputs IH]; intros st Hwf Hok; [done|].
  rewrite run_cons. apply IH; [by apply wf_step | by apply registry_ok_step].
Qed.

(** What a step adds to the outbox of a socket that exists: live events
    and replies, never a greeting. *)
Lemma step_outbox_traffic ws st i :
  wf st → ws < length (sockets st) →
  ∃ more, outbox_of ws (rstep st i) = outbox_of ws st ++ more ∧
          Forall is_traffic more.
Proof.
  intros Hwf Hlt.
  pose proof (step_emitted JSON_parse toUtf8String st i) as He.
  destruct (remitted_by (networks st) i) as [e|] eqn:Hem.
  { rewrite He, outbox_of_broadcastEvent by apply Hwf.
    eexists; split; [done|]. repeat case_match; repeat constructor. }
  clear He. destruct i; simpl in *.
  - exists []. rewrite app_nil_r. split; [|done].
    unfold outbox_of. by rewrite sockets_connect_old.
  - destruct (on_message_reply JSON_parse ws0 raw st) as (m & Hm & ->).
    rewrite outbox_of_ws_send. eexists; split; [done|].
    repeat case_match; repeat constructor. by destruct m.
  - exists []. rewrite app_nil_r. split; [|done]. unfold outbox_of; simpl.
    rewrite list_lookup_alter. case_decide; [subst ws0|done].
    by destruct (sockets st !! ws).
  - exists []. rewrite app_nil_r. split; [|done]. unfold outbox_of; simpl.
    rewrite list_lookup_alter. case_decide; [subst ws0|done].
    by destruct (sockets st !! ws).
  - exists []. rewrite app_nil_r. by case_decide.
  - exists []. rewrite app_nil_r. by case_decide.
Qed.

Lemma run_outbox_traffic ws inputs st :
  wf st → ws < length (sockets st) →
  ∃ more, outbox_of ws (rrun inputs st) = outbox_of ws st ++ more ∧
          Forall is_traffic more.
Proof.
  revert st. induction inputs as [|i inputs IH]; intros st Hwf Hlt.
  { exists []. by rewrite app_nil_r. }
  destruct (step_outbox_traffic ws st i Hwf Hlt) as (m1 & H1 & Ht1).
  destruct (step_outbox_grows JSON_parse toUtf8String ws st i Hwf Hlt) as [_ Hlt'].
  destruct (IH (rstep st i) (wf_step JSON_parse toUtf8String st i Hwf) Hlt')
    as (m2 & H2 & Ht2).
  exists (m1 ++ m2). rewrite run_cons, H2, H1, app_assoc. split; [done|].
  by apply Forall_app.
Qed.

End RegistryFacts.

Lemma Set_delete_add_fresh ws s : ws ∉ s → Set_delete ws (Set_add ws s) = s.
Proof.
  intros Hfresh. unfold Set_add, Set_delete. rewrite decide_False by done.
  rewrite filter_app, filter_cons_False, filter_nil, app_nil_r by (by intros ?).
  induction s as [|c s IH]; [done|].
  apply not_elem_of_cons in Hfresh as [Hne Hfresh].
  rewrite filter_cons_True by done. f_equal. by apply IH.
Qed.

Lemma length_NoDup_below (l : list nat) (n : nat) :
  NoDup l → (∀ x, x ∈ l → x < n) → length l ≤ n.
Proof.
  intros Hnd Hlt.
  assert (length l ≤ length (seq 0 n)) as Hle; [|by rewrite length_seq in Hle].
  apply submseteq_length, NoDup_submseteq; [done|].
  intros x Hx. apply elem_of_seq. specialize (Hlt x Hx). lia.
Qed.

Section SessionFacts.

Variable JSON_parse : string → Completion json.
Variable toUtf8String : string → option string.

Local Abbreviation rstep := (step JSON_parse toUtf8String).
Local Abbreviation rrun := (run JSON_parse toUtf8String).
Local Abbreviation remitted := (emitted toUtf8String).

Lemma emitted_app nets i1 i2 :
  remitted nets (i1 ++ i2) = remitted nets i1 ++ remitted nets i2.
Proof. apply omap_app. Qed.

Lemma wf_reached nets inputs : wf (rrun inputs (constructor nets)).
Proof. apply wf_run, wf_constructor. Qed.

Lemma registry_ok_reached nets inputs : registry_ok (rrun inputs (constructor nets)).
Proof.
  apply registry_ok_run; [apply wf_constructor | apply registry_ok_constructor].
Qed.

(** What a session that connects after [before] has been sent by the
    end of [after], if nothing closes it meanwhile. *)
Lemma new_session_view nets before now after :
  let st1 := rrun before (constructor nets) in
  let ws := length (sockets st1) in
  let o := outbox_of ws (rrun (Connection now :: after) st1) in
  Forall (leaves_open ws) after →
  replayed o = drop (length (remitted nets before) - 100) (remitted nets before) ∧
  live o = remitted nets after.
Proof.
  intros st1 ws o Hafter.
  assert (wf st1) as Hwf1 by apply wf_reached.
  assert (wf (connect now st1)) as Hwf2
    by apply (wf_step JSON_parse toUtf8String st1 (Connection now) Hwf1).
  destruct (run_session JSON_parse toUtf8String ws after (connect now st1) Hwf2
              (new_in_clients_connect now st1) (is_open_connect_new now st1) Hafter)
    as [Hr Hl].
  subst o. rewrite run_cons.
  change (rstep st1 (Connection now)) with (connect now st1).
  subst ws. rewrite Hr, Hl, outbox_of_connect_new.
  assert (networks (connect now st1) = nets) as ->.
  { rewrite connect_state; simpl. apply networks_run. }
  rewrite <- (messageHistory_run_constructor JSON_parse toUtf8String nets before).
  fold st1. split.
  - case_decide as Hh; [by rewrite Hh|]. unfold replayed; simpl. by rewrite app_nil_r.
  - by case_decide.
Qed.

End SessionFacts.

(** ** Client messages, the registry, and what sessions see *)

(** X1. Whatever a client sends, and whether or not it parses, the
    ['message'] handler leaves what the relay holds as it was, sends
    nothing on any other socket, and answers on the sender's socket
    with exactly one message, which is a [subscribed], [stats] or
    [error] message, when that socket is open, and with nothing when it
    is not. *)
Theorem X1_client_message_one_reply
    (JSON_parse : string → Completion json) (ws : WsId) (raw : string) (st : State) :
  let st' := on_message JSON_parse ws raw st in
  relay_memory st' = relay_memory st ∧
  (∀ i, i ≠ ws → sockets st' !! i = sockets st !! i) ∧
  ∃ reply, is_reply reply ∧
           outbox_of ws st' = outbox_of ws st ++ (if is_open ws st then [reply] else []).
Proof.
  intros st'. subst st'.
  destruct (on_message_reply JSON_parse ws raw st) as (m & Hm & ->).
  split_and!.
  - apply relay_memory_ws_send.
  - intros i Hi. by apply sockets_ws_send_other.
  - exists m. split; [done|]. by rewrite outbox_of_ws_send, decide_True.
Qed.

(** X2. In every state the relay reaches the registry and the sockets
    agree: no session is registered twice, every registered session
    has a socket that is open or closing, every open socket is
    registered (so a broadcast passes over no open socket), and there
    are no more registered sessions than accepted sockets. *)
Theorem X2_registry_matches_sockets
    (JSON_parse : string → Completion json) (toUtf8String : string → option string)
    (nets : list string) (inputs : list Input) :
  let st := run JSON_parse toUtf8String inputs (constructor nets) in
  NoDup (clients st) ∧
  (∀ ws, ws ∈ clients st →
         ready_of ws st = Some OPEN ∨ ready_of ws st = Some CLOSING) ∧
  (∀ ws, ready_of ws st = Some OPEN → ws ∈ clients st) ∧
  length (clients st) ≤ length (sockets st).
Proof.
  intros st.
  pose proof (wf_reached JSON_parse toUtf8String nets inputs) as Hwf.
  destruct (registry_ok_reached JSON_parse toUtf8String nets inputs) as [Hreg Hopen].
  fold st in Hwf, Hreg, Hopen.
  split_and!.
  - apply Hwf.
  - intros ws Hin. destruct (Hreg ws Hin) as (r & -> & Hr). destruct r; auto. done.
  - exact Hopen.
  - apply length_NoDup_below; [apply Hwf|].
    intros ws Hin. destruct (Hreg ws Hin) as (r & Hr & _). by eapply ready_of_lt.
Qed.

(** X3. In every state the relay reaches, a session that connects and
    then closes leaves the registry and the ring exactly as they were,
    and the sockets that existed untouched. *)
Theorem X3_connect_then_close_restores_registry
    (JSON_parse : string → Completion json) (toUtf8String : string → option string)
    (nets : list string) (inputs : list Input) (now : string) :
  let st := run JSON_parse toUtf8String inputs (constructor nets) in
  let ws := length (sockets st) in
  let st' := run JSON_parse toUtf8String [Connection now; Close ws] st in
  clients st' = clients st ∧
  messageHistory st' = messageHistory st ∧
  (∀ i, i < ws → sockets st' !! i = sockets st !! i).
Proof.
  intros st ws st'.
  destruct (registry_ok_reached JSON_parse toUtf8String nets inputs) as [Hreg _].
  fold st in Hreg.
  assert (ws ∉ clients st) as Hfresh.
  { intros Hin. destruct (Hreg ws Hin) as (r & Hr & _).
    apply ready_of_lt in Hr. subst ws. lia. }
  subst st'. unfold run; simpl. rewrite connect_state; simpl.
  split_and!.
  - by apply Set_delete_add_fresh.
  - done.
  - intros i Hi. rewrite list_lookup_alter_ne by (subst ws; lia).
    by apply lookup_app_l.
Qed.

(** X4. Two sessions whose sockets are open, and stay open, are sent
    live the same events in the same order: what each gets during the
    inputs [later] is the list of the events these inputs emit. *)
Theorem X4_sessions_get_same_live_events
    (JSON_parse : string → Completion json) (toUtf8String : string → option string)
    (nets : list string) (before later : list Input) (ws1 ws2 : WsId) :
  let st := run JSON_parse toUtf8String before (constructor nets) in
  let st' := run JSON_parse toUtf8String later st in
  is_open ws1 st = true → is_open ws2 st = true →
  Forall (leaves_open ws1) later → Forall (leaves_open ws2) later →
  live (outbox_of ws1 st') = live (outbox_of ws1 st) ++ emitted toUtf8String nets later ∧
  live (outbox_of ws2 st') = live (outbox_of ws2 st) ++ emitted toUtf8String nets later.
Proof.
  intros st st' Ho1 Ho2 Hl1 Hl2.
  pose proof (wf_reached JSON_parse toUtf8String nets before) as Hwf.
  destruct (registry_ok_reached JSON_parse toUtf8String nets before) as [_ Hopen].
  fold st in Hwf, Hopen.
  assert (networks st = nets) as Hn by apply networks_run.
  split.
  - destruct (run_session JSON_parse toUtf8String ws1 later st Hwf) as [_ Hl];
      [by apply Hopen, is_open_ready_of | done | done |].
    by rewrite Hn in Hl.
  - destruct (run_session JSON_parse toUtf8String ws2 later st Hwf) as [_ Hl];
      [by apply Hopen, is_open_ready_of | done | done |].
    by rewrite Hn in Hl.
Qed.

(** Two sessions connect, then two events are emitted. *)
Lemma X4_witness_two_sessions_two_events :
  let st' := example_run [Connection example_now; Connection example_now;
                          example_sent "subnet1" 0; example_received "subnet2" 1] in
  live (outbox_of 0 st') = live (outbox_of 1 st').
Proof.
  destruct (X4_sessions_get_same_live_events example_JSON_parse example_toUtf8String
              example_networks [Connection example_now; Connection example_now]
              [example_sent "subnet1" 0; example_received "subnet2" 1] 0 1)
    as [H0 H1]; [reflexivity | reflexivity | repeat constructor | repeat constructor |].
  exact (eq_trans H0 (eq_sym H1)).
Defined.

(** X5. A session that connects later sees the end of what a session
    present from the start was sent live: if session 0 connects first
    and stays open, and another connects after the inputs [mid] and
    stays open during [later], then the other's replay followed by its
    live events is what session 0 was sent live, without the events
    older than the last hundred emitted before the other connected. *)
Theorem X5_late_session_sees_suffix
    (JSON_parse : string → Completion json) (toUtf8String : string → option string)
    (nets : list string) (now0 now1 : string) (mid later : list Input) :
  let st1 := run JSON_parse toUtf8String (Connection now0 :: mid) (constructor nets) in
  let ws := length (sockets st1) in
  let st2 := run JSON_parse toUtf8String (Connection now1 :: later) st1 in
  Forall (leaves_open 0) mid → Forall (leaves_open 0) later →
  Forall (leaves_open ws) later →
  replayed (outbox_of ws st2) ++ live (outbox_of ws st2) =
    drop (length (emitted toUtf8String nets mid) - 100) (live (outbox_of 0 st2)).
Proof.
  intros st1 ws st2 Hmid Hlater0 Hlater.
  destruct (new_session_view JSON_parse toUtf8String nets (Connection now0 :: mid)
              now1 later Hlater) as [Hr Hl].
  fold st1 ws st2 in Hr, Hl. rewrite Hr, Hl.
  destruct (new_session_view JSON_parse toUtf8String nets [] now0
              (mid ++ Connection now1 :: later)) as [_ Hl0].
  { apply Forall_app. split; [done|]. by apply Forall_cons. }
  assert (run JSON_parse toUtf8String (Connection now0 :: mid ++ Connection now1 :: later)
            (run JSON_parse toUtf8String [] (constructor nets)) = st2) as Hst.
  { subst st2 st1. unfold run. by rewrite app_comm_cons, foldl_app. }
  rewrite Hst in Hl0. simpl in Hl0. rewrite Hl0.
  change (emitted toUtf8String nets (Connection now0 :: mid))
    with (emitted toUtf8String nets mid).
  rewrite emitted_app.
  change (emitted toUtf8String nets (Connection now1 :: later))
    with (emitted toUtf8String nets later).
  rewrite drop_app_le by lia. done.
Qed.

(** One event while session 0 is alone, then session 1 connects, then
    one more event. *)
Lemma X5_witness_one_before_one_after :
  let st2 := example_run [Connection example_now; example_sent "subnet1" 0;
                          Connection example_now; example_received "subnet2" 1] in
  replayed (outbox_of 1 st2) ++ live (outbox_of 1 st2) = live (outbox_of 0 st2).
Proof.
  exact (X5_late_session_sees_suffix example_JSON_parse example_toUtf8String
           example_networks example_now example_now
           [example_sent "subnet1" 0] [example_received "subnet2" 1]
           ltac:(repeat constructor) ltac:(repeat constructor)
           ltac:(repeat constructor)).
Defined.

(** X6. A session is greeted once. Whatever happens after it connects,
    also its closing, all it has been sent is the [connected] message,
    then the [history] message when the ring was not empty, and after
    these only live events and replies: never a second [connected] or
    [history] message. *)
Theorem X6_greeting_once
    (JSON_parse : string → Completion json) (toUtf8String : string → option string)
    (nets : list string) (before : list Input) (now : string) (later : list Input) :
  let st := run JSON_parse toUtf8String before (constructor nets) in
  let ws := length (sockets st) in
  ∃ more,
    outbox_of ws (run JSON_parse toUtf8String (Connection now :: later) st) =
      (Connected now nets ::
       (if decide (messageHistory st = []) then [] else [History (messageHistory st)]))
      ++ more ∧
    Forall is_traffic more.
Proof.
  intros st ws.
  pose proof (wf_reached JSON_parse toUtf8String nets before) as Hwf. fold st in Hwf.
  assert (networks st = nets) as Hn by apply networks_run.
  destruct (run_outbox_traffic JSON_parse toUtf8String ws later (connect now st))
    as (more & Ho & Ht).
  - apply (wf_step JSON_parse toUtf8String st (Connection now) Hwf).
  - apply is_open_lt, is_open_connect_new.
  - exists more. split; [|done].
    rewrite run_cons.
    change (step JSON_parse toUtf8String st (Connection now)) with (connect now st).
    subst ws. by rewrite Ho, outbox_of_connect_new, Hn.
Qed.

(** ** Shutting down *)

Lemma socket_close_outbox s : outbox (socket_close s) = outbox s.
Proof. unfold socket_close. by destruct (readyState s). Qed.

Lemma socket_close_not_open s : readyState (socket_close s) ≠ OPEN.
Proof. unfold socket_close. by destruct (readyState s) eqn:E; simpl; rewrite ?E. Qed.

Lemma socket_close_idemp s : socket_close (socket_close s) = socket_close s.
Proof. unfold socket_close. by destruct (readyState s) eqn:E; simpl; rewrite ?E. Qed.

Lemma close_all_fields cs st :
  networks (foldl (λ st c, ws_close c st) st cs) = networks st ∧
  clients (foldl (λ st c, ws_close c st) st cs) = clients st ∧
  messageHistory (foldl (λ st c, ws_close c st) st cs) = messageHistory st ∧
  maxHistorySize (foldl (λ st c, ws_close c st) st cs) = maxHistorySize st.
Proof.
  revert st. induction cs as [|c cs IH]; intros st; [done|].
  cbn [foldl]. by destruct (IH (ws_close c st)) as (-> & -> & -> & ->).
Qed.

Lemma close_all_length cs st :
  length (sockets (foldl (λ st c, ws_close c st) st cs)) = length (sockets st).
Proof.
  revert st. induction cs as [|c cs IH]; intros st; [done|].
  cbn [foldl]. rewrite IH. unfold ws_close; simpl. apply length_alter.
Qed.

Lemma close_all_lookup cs st i :
  sockets (foldl (λ st c, ws_close c st) st cs) !! i =
    (if decide (i ∈ cs) then socket_close else id) <$> sockets st !! i.
Proof.
  revert st. induction cs as [|c cs IH]; intros st; cbn [foldl].
  - rewrite decide_False by apply not_elem_of_nil. by destruct (sockets st !! i).
  - rewrite IH. unfold ws_close; simpl. rewrite list_lookup_alter.
    destruct (decide (c = i)) as [->|Hne].
    + rewrite (decide_True (P := i ∈ i :: cs)) by (apply elem_of_cons; by left).
      destruct (sockets st !! i) as [s|]; [simpl|done].
      case_decide; [|done]. by rewrite socket_close_idemp.
    + destruct (decide (i ∈ cs)) as [Hin|Hin].
      * by rewrite decide_True by (apply elem_of_cons; by right).
      * rewrite decide_False; [done|]. rewrite elem_of_cons. intros [?|?]; congruence.
Qed.


Lemma is_open_false_ready_of ws st :
  is_open ws st = false ↔ ready_of ws st ≠ Some OPEN.
Proof.
  rewrite <- is_open_ready_of. by destruct (is_open ws st).
Qed.

Section ProcessFacts.

Variable JSON_parse : string → Completion json.
Variable toUtf8String : string → option string.

Local Abbreviation pstep := (process_step JSON_parse toUtf8String).
Local Abbreviation prun := (process_run JSON_parse toUtf8String).

(** A stopped process with no open socket stays so, and a step changes
    neither the ring nor any outbox, and registers nobody. *)
Lemma stopped_step p i :
  listening p = false → serving p = false →
  (∀ ws, is_open ws (relay p) = false) →
  listening (pstep p i) = false ∧ serving (pstep p i) = false ∧
  (∀ ws, is_open ws (relay (pstep p i)) = false) ∧
  messageHistory (relay (pstep p i)) = messageHistory (relay p) ∧
  (∀ ws, outbox_of ws (relay (pstep p i)) = outbox_of ws (relay p)) ∧
  (∀ ws, ws ∈ clients (relay (pstep p i)) → ws ∈ clients (relay p)) ∧
  length (sockets (relay (pstep p i))) = length (sockets (relay p)).
Proof.
  intros Hl Hs Hclosed. destruct i; simpl; rewrite ?Hl, ?Hs; try done.
  - destruct (on_message_reply JSON_parse ws raw (relay p)) as (m & _ & ->).
    destruct (ws_send_fields ws m (relay p)) as (_ & -> & -> & _ & ->).
    split_and!; try done.
    + intros i. by rewrite is_open_ws_send.
    + intros i. rewrite outbox_of_ws_send, Hclosed. case_decide; by rewrite app_nil_r.
  - rewrite length_alter. split_and!; try done.
    + intros i. apply is_open_false_ready_of.
      rewrite ready_of_set_readyState.
      specialize (Hclosed i). apply is_open_false_ready_of in Hclosed.
      case_decide; [|done]. by destruct (ready_of i (relay p)).
    + intros i. unfold outbox_of; simpl. rewrite list_lookup_alter.
      case_decide; [subst ws|done]. by destruct (sockets (relay p) !! i).
  - rewrite length_alter. split_and!; try done.
    + intros i. apply is_open_false_ready_of. intros Hopen.
      assert (ready_of i (set_sockets (alter (set_readyState CLOSED) ws) (relay p))
              = Some OPEN) as Hr by exact Hopen.
      rewrite ready_of_set_readyState in Hr.
      specialize (Hclosed i). apply is_open_false_ready_of in Hclosed.
      case_decide; [|done]. by destruct (ready_of i (relay p)).
    + intros i. unfold outbox_of; simpl. rewrite list_lookup_alter.
      case_decide; [subst ws|done]. by destruct (sockets (relay p) !! i).
    + intros i. rewrite elem_of_Set_delete. tauto.
Qed.

Lemma stopped_run inputs p :
  listening p = false → serving p = false →
  (∀ ws, is_open ws (relay p) = false) →
  messageHistory (relay (prun inputs p)) = messageHistory (relay p) ∧
  (∀ ws, outbox_of ws (relay (prun inputs p)) = outbox_of ws (relay p)) ∧
  (∀ ws, ws ∈ clients (relay (prun inputs p)) → ws ∈ clients (relay p)) ∧
  length (sockets (relay (prun inputs p))) = length (sockets (relay p)).
Proof.
  revert p. induction inputs as [|i inputs IH]; intros p Hl Hs Hclosed; [done|].
  destruct (stopped_step p i Hl Hs Hclosed) as (Hl' & Hs' & Hc' & Hh & Ho & Hin & Hlen).
  destruct (IH (pstep p i) Hl' Hs' Hc') as (Hh2 & Ho2 & Hin2 & Hlen2).
  change (prun (i :: inputs) p) with (prun inputs (pstep p i)).
  split_and!.
  - by rewrite Hh2.
  - intros ws. by rewrite Ho2.
  - intros ws Hws. by apply Hin, Hin2.
  - by rewrite Hlen2.
Qed.

End ProcessFacts.


(** ** The example client *)

Lemma remove_last_while_over_take limit fuel (l : list MessageDiv) :
  length l ≤ limit + fuel → remove_last_while_over limit fuel l = take limit l.
Proof.
  revert l. induction fuel as [|fuel IH]; intros l Hlen; simpl.
  - by rewrite take_ge by lia.
  - destruct (limit <? length l) eqn:Hlt.
    + apply Nat.ltb_lt in Hlt.
      rewrite IH by (rewrite removelast_firstn_len, length_take; lia).
      rewrite removelast_firstn_len, take_take. f_equal. lia.
    + apply Nat.ltb_ge in Hlt. by rewrite take_ge by lia.
Qed.

(** The loop that drops last children leaves the first fifty. *)
Lemma keep_50_take l : keep_50 l = take 50 l.
Proof. unfold keep_50. apply remove_last_while_over_take. lia. Qed.

Lemma take_cons_take {A} n (x : A) l : take (S n) (x :: take (S n) l) = take (S n) (x :: l).
Proof. simpl. f_equal. rewrite take_take. f_equal. lia. Qed.

Lemma shown_app ms1 ms2 : shown (ms1 ++ ms2) = shown ms1 ++ shown ms2.
Proof. unfold shown. apply bind_app. Qed.

Lemma shown_cons m ms :
  shown (m :: ms) =
    match m with History es => es | Live e => [e] | _ => [] end ++ shown ms.
Proof. done. Qed.

Lemma replayed_cons m ms :
  replayed (m :: ms) = match m with History es => es | _ => [] end ++ replayed ms.
Proof. done. Qed.

Lemma length_shown ms : length (shown ms) = length (replayed ms) + length (live ms).
Proof.
  induction ms as [|m ms IH]; [done|].
  rewrite shown_cons, replayed_cons, !length_app, IH.
  destruct m; simpl; lia.
Qed.

Lemma Forall_shown (P : Event → Prop) ms :
  Forall P (replayed ms) → Forall P (live ms) → Forall P (shown ms).
Proof.
  induction ms as [|m ms IH]; [done|].
  rewrite shown_cons, replayed_cons, !Forall_app. intros [Hr1 Hr2] Hl.
  destruct m; simpl in *; try (split; [done | by apply IH]).
  apply Forall_cons in Hl as [He Hl]. split; [by apply Forall_singleton | by apply IH].
Qed.

Section ClientFacts.

Variable Date_now : nat → Z.

Local Abbreviation show := (show_event Date_now).
Local Abbreviation crun := (client_run Date_now).

(** The page after the events [es] were shown one after the other. *)
Lemma show_events es p :
  let q := foldl (λ p e, show e p) p es in
  messageCount q = messageCount p + length es ∧
  length (messageTimestamps q) = length (messageTimestamps p) + length es ∧
  (length (messageList p) ≤ 50 →
   messageList q = take 50 (rev (render <$> es) ++ messageList p)) ∧
  activeNetworks q = activeNetworks p ∧
  (es ≠ [] → totalMessages q = Some (messageCount q) ∧
             ∃ k, messagesPerMinute q = Some k ∧ k ≤ length (messageTimestamps q)).
Proof.
  revert p. induction es as [|e es IH] using rev_ind; intros p; simpl.
  { split_and!; [lia | lia | | done | done]. intros Hl. by rewrite take_ge. }
  rewrite foldl_snoc.
  destruct (IH p) as (Hc & Ht & Hm & Ha & _).
  set (q := foldl (λ p e, show e p) p es) in *.
  rewrite fmap_app, rev_app_distr, !length_app; simpl.
  split_and!.
  - lia.
  - rewrite length_app; simpl. lia.
  - intros Hl. rewrite keep_50_take, (Hm Hl). apply take_cons_take.
  - done.
  - intros _. split; [done|]. eexists; split; [done|].
    etrans; [apply length_filter|]. done.
Qed.

Lemma onmessage_event_known e p :
  known_type e → onmessage_event Date_now e p = (show e p, false).
Proof. intros He. unfold onmessage_event. by rewrite decide_True. Qed.

Lemma forEach_message_known es p :
  Forall known_type es →
  forEach_message Date_now es p = (foldl (λ p e, show e p) p es, false).
Proof.
  revert p. induction es as [|e es IH]; intros p Hk; [done|].
  apply Forall_cons in Hk as [He Hk]. simpl.
  rewrite onmessage_event_known by done. by apply IH.
Qed.

(** On messages whose events are of the two kinds the relay builds, a
    handler shows the events it carries, one after the other, and does
    not throw; a stats reply touches the counters only. *)
Lemma onmessage_known m p :
  Forall known_type (shown [m]) →
  let q := foldl (λ p e, show e p) p (shown [m]) in
  (onmessage Date_now m p).2 = false ∧
  messageCount (onmessage Date_now m p).1 = messageCount q ∧
  messageTimestamps (onmessage Date_now m p).1 = messageTimestamps q ∧
  messageList (onmessage Date_now m p).1 = messageList q.
Proof.
  assert (shown [m] = match m with History es => es | Live e => [e] | _ => [] end)
    as -> by (rewrite shown_cons; apply app_nil_r).
  intros Hk. destruct m; simpl in *; try done.
  - by rewrite forEach_message_known.
  - rewrite Forall_singleton in Hk. by rewrite onmessage_event_known.
Qed.

Lemma client_run_snoc ms m p :
  crun (ms ++ [m]) p =
    ((onmessage Date_now m (crun ms p).1).1,
     (crun ms p).2 || (onmessage Date_now m (crun ms p).1).2).
Proof.
  unfold client_run. rewrite foldl_snoc.
  by destruct (onmessage Date_now m _).
Qed.

(** The page after the messages [ms], when the page began with at most
    fifty children. *)
Lemma client_run_known ms p :
  Forall known_type (shown ms) → length (messageList p) ≤ 50 →
  (crun ms p).2 = false ∧
  messageCount (crun ms p).1 = messageCount p + length (shown ms) ∧
  length (messageTimestamps (crun ms p).1) =
    length (messageTimestamps p) + length (shown ms) ∧
  messageList (crun ms p).1 = take 50 (rev (render <$> shown ms) ++ messageList p).
Proof.
  intros Hk Hl. induction ms as [|m ms IH] using rev_ind.
  { simpl. split_and!; [done | lia | lia | by rewrite take_ge]. }
  rewrite shown_app in Hk. apply Forall_app in Hk as [Hk Hm].
  destruct (IH Hk) as (Ht & Hc & Hts & Hml).
  rewrite client_run_snoc, Ht; simpl fst; simpl snd.
  destruct (onmessage_known m (crun ms p).1 Hm) as (Hthrown & Hqc & Hqt & Hql).
  destruct (show_events (shown [m]) (crun ms p).1) as (Sc & St & Sm & _).
  rewrite Hthrown, Hqc, Hqt, Hql, Sc, St, Hc, Hts, shown_app, length_app.
  split_and!; try done; [lia | lia |].
  rewrite Sm by (rewrite Hml, length_take; lia).
  rewrite Hml, fmap_app, rev_app_distr, <- app_assoc.
  generalize (rev (render <$> shown [m])) as new.
  generalize (rev (render <$> shown ms) ++ messageList p) as old.
  intros old new.
  apply list_eq; intros i. rewrite !lookup_take.
  destruct (decide (i < 50)) as [Hi|Hi]; [|done].
  destruct (decide (i < length new)) as [Hn|Hn].
  - by rewrite !lookup_app_l.
  - rewrite !lookup_app_r by lia. rewrite lookup_take, decide_True by lia. done.
Qed.

End ClientFacts.

Lemma emitted_known (toUtf8String : string → option string) nets inputs :
  Forall known_type (emitted toUtf8String nets inputs).
Proof.
  induction inputs as [|i inputs IH]; [constructor|].
  rewrite emitted_cons.
  destruct (emitted_by toUtf8String nets i) as [e|] eqn:He; [|done].
  constructor; [|done]. by eapply emitted_by_known_type.
Qed.

(** X9. The client shows the newest fifty events, newest first: after
    any messages of the relay whose events are of the two kinds it
    builds, the children of [messageList] are the first fifty of these
    events in reverse order of arrival, those of a replay included; so
    there are never more than fifty. *)
Theorem X9_client_keeps_newest_fifty (Date_now : nat → Z) (ms : list ServerMsg) :
  Forall known_type (shown ms) →
  let page := (client_run Date_now ms initial_page).1 in
  messageList page = take 50 (rev (render <$> shown ms)) ∧
  length (messageList page) = length (shown ms) `min` 50.
Proof.
  intros Hk page.
  destruct (client_run_known Date_now ms initial_page Hk) as (_ & _ & _ & Hl);
    [simpl; lia|].
  fold page in Hl. simpl in Hl. rewrite app_nil_r in Hl.
  split; [done|]. rewrite Hl, length_take, length_rev, length_fmap. lia.
Qed.

(** A replay of sixty events and one live event: fifty are shown, the
    live one first. *)
Lemma X9_witness_sixty_replayed_one_live :
  let ms := [Connected example_now example_networks;
             History (example_event "subnet1" <$> seq 0 60);
             Live (example_event "subnet2" 60)] in
  let page := (client_run example_clock ms initial_page).1 in
  length (messageList page) = 50 ∧
  head (messageList page) = Some (render (example_event "subnet2" 60)).
Proof.
  intros ms page.
  assert (Forall known_type (shown ms)) as Hk.
  { vm_compute. repeat constructor. }
  destruct (X9_client_keeps_newest_fifty example_clock ms Hk) as [Hl Hlen].
  split.
  - exact Hlen.
  - fold page in Hl. rewrite Hl. reflexivity.
Defined.

(** X10. The client counts every event it is sent, replayed or live:
    after any messages of the relay whose events are of the two kinds
    it builds, no handler has thrown, [messageCount] is the number of
    replayed events plus the number of live events, and
    [messageTimestamps] holds one time for each of them, none ever
    dropped. *)
Theorem X10_client_counts_replayed_and_live (Date_now : nat → Z) (ms : list ServerMsg) :
  Forall known_type (shown ms) →
  let page := client_run Date_now ms initial_page in
  page.2 = false ∧
  messageCount page.1 = length (replayed ms) + length (live ms) ∧
  length (messageTimestamps page.1) = messageCount page.1.
Proof.
  intros Hk page.
  destruct (client_run_known Date_now ms initial_page Hk) as (Ht & Hc & Hts & _);
    [simpl; lia|].
  fold page in Ht, Hc, Hts. simpl in Hc, Hts.
  rewrite Hts, Hc, length_shown. done.
Qed.

(** Two replayed events, a stats reply and one live event. *)
Lemma X10_witness_two_replayed_one_live :
  let ms := [Connected example_now example_networks;
             History [example_event "subnet1" 0; example_event "subnet1" 1];
             Stats 2 1 ∅;
             Live (example_event "subnet2" 2)] in
  messageCount (client_run example_clock ms initial_page).1 = 3.
Proof.
  intros ms.
  assert (Forall known_type (shown ms)) as Hk by (repeat constructor).
  destruct (X10_client_counts_replayed_and_live example_clock ms Hk) as (_ & Hc & _).
  exact Hc.
Defined.



(** X12. The page of a client of the relay. A client that connects
    after the inputs [before] and whose socket stays open during the
    inputs [later], fed what the relay has sent it, has thrown on
    nothing, counts the last hundred events emitted before it connected
    and every event emitted later, and shows the newest fifty of
    them. *)
Theorem X12_page_of_a_session
    (JSON_parse : string → Completion json) (toUtf8String : string → option string)
    (Date_now : nat → Z)
    (nets : list string) (before : list Input) (now : string) (later : list Input) :
  let st1 := run JSON_parse toUtf8String before (constructor nets) in
  let ws := length (sockets st1) in
  let o := outbox_of ws (run JSON_parse toUtf8String (Connection now :: later) st1) in
  let page := client_run Date_now o initial_page in
  Forall (leaves_open ws) later →
  page.2 = false ∧
  messageCount page.1 =
    (length (emitted toUtf8String nets before) `min` 100) +
    length (emitted toUtf8String nets later) ∧
  length (messageList page.1) = messageCount page.1 `min` 50.
Proof.
  intros st1 ws o page Hlater.
  destruct (new_session_view JSON_parse toUtf8String nets before now later Hlater)
    as [Hr Hl].
  fold st1 ws o in Hr, Hl.
  assert (Forall known_type (shown o)) as Hk.
  { apply Forall_shown.
    - rewrite Hr. apply Forall_drop, emitted_known.
    - rewrite Hl. apply emitted_known. }
  destruct (client_run_known Date_now o initial_page Hk) as (Ht & Hc & _ & Hml);
    [simpl; lia|].
  fold page in Ht, Hc, Hml. simpl in Hc, Hml. rewrite app_nil_r in Hml.
  assert (length (shown o) =
            (length (emitted toUtf8String nets before) `min` 100) +
            length (emitted toUtf8String nets later)) as Hlen.
  { rewrite length_shown, Hr, Hl, length_drop. lia. }
  split_and!; [done | by rewrite Hc | ].
  rewrite Hml, Hc, length_take, length_rev, length_fmap. lia.
Qed.

(** Two events, then the client connects, then one more event. *)
Lemma X12_witness_two_before_one_after :
  let o := outbox_of 0 (example_run
             [example_sent "subnet1" 0; example_received "subnet2" 1;
              Connection example_now; example_sent "cchain" 2]) in
  messageCount (client_run example_clock o initial_page).1 = 3.
Proof.
  destruct (X12_page_of_a_session example_JSON_parse example_toUtf8String
              example_clock example_networks
              [example_sent "subnet1" 0; example_received "subnet2" 1]
              example_now [example_sent "cchain" 2]) as (_ & Hc & _).
  { repeat constructor. }
  exact Hc.
Defined.

(** ** A client that asks for the statistics *)

Lemma on_message_get_stats (JSON_parse : string → Completion json) ws raw request st :
  JSON_parse raw = Normal request →
  as_string (property "type" request) = Some "get_stats"%string →
  on_message JSON_parse ws raw st = ws_send ws (stats_message st) st.
Proof.
  intros Hraw Htype. unfold on_message.
  by rewrite Hraw, handleClientMessage_get_stats.
Qed.

(** X13. A client connects and, some time later during which nothing
    closes it, asks for the statistics. With [n1] events emitted before it
    connected and [n2] since, its own count of events is then
    [min n1 100 + n2], the replay and the live events; the total it
    displays once the reply is in is the length of the relay's ring,
    [min (n1 + n2) 100], which is the same number exactly when the ring
    has dropped no event since the client connected ([n2] is 0, or
    [n1 + n2] is at most 100); and the networks counter is the number of
    distinct networks with an event in the ring, those left out whose
    names are of [Object_prototype_names]. *)
Theorem X13_page_after_stats
    (JSON_parse : string → Completion json) (toUtf8String : string → option string)
    (Date_now : nat → Z)
    (nets : list string) (before mid : list Input) (now raw : string) (request : json) :
  let st1 := run JSON_parse toUtf8String before (constructor nets) in
  let ws := length (sockets st1) in
  let st2 := run JSON_parse toUtf8String
               (Connection now :: mid ++ [ClientMessage ws raw]) st1 in
  let page := (client_run Date_now (outbox_of ws st2) initial_page).1 in
  let n1 := length (emitted toUtf8String nets before) in
  let n2 := length (emitted toUtf8String nets mid) in
  Forall (leaves_open ws) mid →
  JSON_parse raw = Normal request →
  as_string (property "type" request) = Some "get_stats"%string →
  messageCount page = n1 `min` 100 + n2 ∧
  totalMessages page = Some (length (messageHistory st2)) ∧
  length (messageHistory st2) = (n1 + n2) `min` 100 ∧
  (totalMessages page = Some (messageCount page) ↔ n2 = 0 ∨ n1 + n2 ≤ 100) ∧
  activeNetworks page =
    Some (size (list_to_set (filter (λ n, inherited n = false)
                                    (network <$> messageHistory st2)) : gset string)).
Proof.
  intros st1 ws st2 page n1 n2 Hmid Hraw Htype.
  set (st := run JSON_parse toUtf8String (Connection now :: mid) st1).
  assert (st2 = ws_send ws (stats_message st) st) as Hst2.
  { subst st2 st. unfold run. rewrite app_comm_cons, foldl_snoc.
    apply (on_message_get_stats JSON_parse ws raw request _ Hraw Htype). }
  pose proof (wf_reached JSON_parse toUtf8String nets before) as Hwf1. fold st1 in Hwf1.
  assert (wf (connect now st1)) as Hwf2
    by apply (wf_step JSON_parse toUtf8String st1 (Connection now) Hwf1).
  assert (is_open ws st = true) as Hopen.
  { subst st. rewrite run_cons.
    apply run_session_open; [done | | | done].
    - apply new_in_clients_connect.
    - apply is_open_connect_new. }
  destruct (new_session_view JSON_parse toUtf8String nets before now mid Hmid)
    as [Hr Hl].
  fold st1 in Hr, Hl. fold ws in Hr, Hl. fold st in Hr, Hl.
  assert (messageHistory st2 = messageHistory st) as Hring2.
  { rewrite Hst2. by destruct (ws_send_fields ws (stats_message st) st) as (_ & _ & -> & _). }
  assert (length (messageHistory st) = (n1 + n2) `min` 100) as Hlen.
  { assert (st = run JSON_parse toUtf8String (before ++ Connection now :: mid)
                   (constructor nets)) as Hst.
    { subst st st1. unfold run. by rewrite foldl_app. }
    rewrite Hst, messageHistory_run_constructor, length_drop.
    rewrite emitted_app, emitted_cons, length_app. simpl.
    subst n1 n2. lia. }
  assert (Forall known_type (shown (outbox_of ws st))) as Hk.
  { apply Forall_shown.
    - rewrite Hr. apply Forall_drop, emitted_known.
    - rewrite Hl. apply emitted_known. }
  destruct (client_run_known Date_now (outbox_of ws st) initial_page Hk)
    as (_ & Hc & _); [simpl; lia|].
  rewrite length_shown, Hr, Hl, length_drop in Hc. simpl in Hc.
  assert (messageCount page = n1 `min` 100 + n2) as Hcount.
  { subst page. rewrite Hst2, outbox_of_ws_send_open, client_run_snoc by done.
    simpl. rewrite Hc. subst n1 n2. lia. }
  assert (totalMessages page = Some (length (messageHistory st2))) as Htotal.
  { subst page. rewrite Hring2, Hst2, outbox_of_ws_send_open, client_run_snoc by done.
    done. }
  split_and!; [done | done | by rewrite Hring2 | |].
  - rewrite Htotal, Hcount, Hring2, Hlen. split.
    + intros [= Heq]. lia.
    + intros Hcap. f_equal. lia.
  - subst page. rewrite Hring2, Hst2, outbox_of_ws_send_open, client_run_snoc by done.
    simpl. by rewrite <- dom_stats_networks, size_dom.
Qed.

(** A configuration with a network named [constructor]. One event on
    [subnet1] and one on [constructor], then the client connects; one
    more event on [subnet1], then it asks: three events counted, three
    in all, one network. *)
Lemma X13_witness_three_events_one_network_counted :
  let nets := ["subnet1"; "constructor"]%string in
  let o := outbox_of 0
             (run example_JSON_parse_requests example_toUtf8String
                [example_sent "subnet1" 0; example_sent "constructor" 1;
                 Connection example_now; example_received "subnet1" 2;
                 ClientMessage 0 get_stats_text]
                (constructor nets)) in
  let page := (client_run example_clock o initial_page).1 in
  messageCount page = 3 ∧ totalMessages page = Some 3 ∧ activeNetworks page = Some 1.
Proof.
  intros nets o page.
  destruct (X13_page_after_stats example_JSON_parse_requests
              example_toUtf8String example_clock nets
              [example_sent "subnet1" 0; example_sent "constructor" 1]
              [example_received "subnet1" 2]
              example_now get_stats_text
              (JObj [("type", JStr "get_stats")]%string))
    as (Hc & Ht & _ & _ & Ha).
  { repeat constructor. }
  { reflexivity. }
  { reflexivity. }
  split_and!.
  - etrans; [exact Hc|]. vm_compute. reflexivity.
  - etrans; [exact Ht|]. vm_compute. reflexivity.
  - etrans; [exact Ha|]. vm_compute. reflexivity.
Defined.

(** ** The statistics of the ring *)

(** X15. In any state the relay reaches, a [get_stats] request from an open
    session is answered at once, on that session only, with one [stats]
    message computed by one pass over the ring: [totalMessages] is the
    length of the ring and [connectedClients] the number of registered
    sessions. A network whose name is none of [Object_prototype_names]
    has an entry exactly when the ring holds an event of it, with [sent]
    and [received] the numbers of its [message_sent] and
    [message_received] events in the ring; a network whose name is one
    of them has no entry, whatever the ring holds of it. *)
Theorem X15_get_stats_reply
    (JSON_parse : string → Completion json) (toUtf8String : string → option string)
    (nets : list string) (inputs : list Input) (ws : WsId) (request : json) :
  let st := run JSON_parse toUtf8String inputs (constructor nets) in
  as_string (property "type" request) = Some "get_stats"%string →
  is_open ws st = true →
  ∃ perNetwork,
    let reply := Stats (length (messageHistory st)) (length (clients st)) perNetwork in
    handleClientMessage ws request st = Normal (ws_send ws reply st) ∧
    (∀ raw, JSON_parse raw = Normal request →
            on_message JSON_parse ws raw st = ws_send ws reply st) ∧
    outbox_of ws (ws_send ws reply st) = outbox_of ws st ++ [reply] ∧
    (∀ i, i ≠ ws → sockets (ws_send ws reply st) !! i = sockets st !! i) ∧
    perNetwork = foldl count_message ∅ (messageHistory st) ∧
    ∀ n, perNetwork !! n =
           if decide (n ∈ network <$> messageHistory st)
           then if inherited n then None
                else Some {| sent := sent_on n (messageHistory st);
                             received := received_on n (messageHistory st) |}
           else None.
Proof.
  intros st Htype Hopen. exists (stats_networks (messageHistory st)).
  pose proof (handleClientMessage_get_stats ws request st Htype) as Hh.
  split_and!.
  - exact Hh.
  - intros raw Hraw. unfold on_message. by rewrite Hraw, Hh.
  - by apply outbox_of_ws_send_open.
  - intros i Hi. by apply sockets_ws_send_other.
  - done.
  - intros n. apply stats_networks_lookup.
    apply (wf_run JSON_parse toUtf8String), wf_constructor.
Qed.

(** Three sent on network A and two received on network B, then a
    session connects and asks. *)
Lemma X15_witness_three_sent_two_received :
  let inputs := [example_sent "A" 0; example_sent "A" 1; example_sent "A" 2;
                 example_received "B" 3; example_received "B" 4;
                 Connection example_now] in
  let st := run example_JSON_parse example_toUtf8String inputs
              (constructor ["A"; "B"]%string) in
  ∃ perNetwork,
    handleClientMessage 0 (JObj [("type", JStr "get_stats")]%string) st
      = Normal (ws_send 0 (Stats 5 1 perNetwork) st) ∧
    perNetwork !! "A"%string = Some {| sent := 3; received := 0 |} ∧
    perNetwork !! "B"%string = Some {| sent := 0; received := 2 |}.
Proof.
  intros inputs st.
  destruct (X15_get_stats_reply example_JSON_parse example_toUtf8String
              ["A"; "B"]%string inputs 0 (JObj [("type", JStr "get_stats")]%string)
              eq_refl eq_refl)
    as (perNetwork & Hh & _ & _ & _ & _ & Hn).
  exists perNetwork. split_and!.
  - exact Hh.
  - rewrite Hn. vm_compute. reflexivity.
  - rewrite Hn. vm_compute. reflexivity.
Defined.

(** X16. In any state the relay reaches, every event of the ring is of
    type [message_sent] or [message_received], and for each network
    [sent] plus [received] is the number of its events in the ring. The
    counters of a stats reply, over all the networks it names, add up to
    the number of events of the ring whose network has a name that is
    none of [Object_prototype_names]: to [totalMessages] when no network
    of the configuration has such a name, and to less as soon as the
    ring holds an event of a network that has. *)
Theorem X16_ring_kinds_and_counters
    (JSON_parse : string → Completion json) (toUtf8String : string → option string)
    (nets : list string) (inputs : list Input) :
  let st := run JSON_parse toUtf8String inputs (constructor nets) in
  let h := messageHistory st in
  let total := map_fold (λ _ c acc, sent c + received c + acc) 0 (stats_networks h) in
  Forall (λ e, type e = "message_sent"%string ∨ type e = "message_received"%string) h ∧
  stats_message st = Stats (length h) (length (clients st)) (stats_networks h) ∧
  total = length (filter (λ e, inherited (network e) = false) h) ∧
  (Forall (λ n, inherited n = false) nets → total = length h) ∧
  (Exists (λ e, inherited (network e) = true) h → total < length h) ∧
  ∀ n, sent_on n h + received_on n h = length (filter (λ e, network e = n) h).
Proof.
  intros st h total.
  assert (Forall known_type h) as Hk
    by apply (wf_run JSON_parse toUtf8String), wf_constructor.
  assert (total = length (filter (λ e, inherited (network e) = false) h)) as Ht
    by apply stats_total_networks.
  split_and!; [exact Hk | done | exact Ht | | |].
  - intros Hnets. rewrite Ht. f_equal. apply filter_ordinary_names.
    by apply ring_ordinary_names.
  - intros Hex. rewrite Ht. by apply filter_ordinary_names_lt.
  - intros n. by apply per_network_split.
Qed.
